(** * A physics-informed network for the Burgers equation

    Shallow embedding of [ide_cont_burgers_custom_training.py]: the class
    [PhysicsInformedNN] (constructor, [f_model], [loss], [grad], [fit],
    [predict]) and the part of the script that samples the training set and
    reports the relative error.

    Conventions.
    - A float32 or float64 number is a real number of [R], and a conversion
      between the two ([tf.convert_to_tensor]) keeps the value.  Rounding is
      modelled in one place, the underflow of [tf.exp] to zero
      ([float32_exp]), on which the sign of the viscosity depends; elsewhere
      the properties are stated so that they do not depend on rounding.
    - A rank-2 tensor or array is the list of its rows ([matrix]); a rank-1
      tensor is a [vector].  A tensor of shape [N,1] is a [matrix] whose rows
      have one entry each.
    - The functions of TensorFlow, Keras and NumPy that the script calls are
      modelled from their documentation: [tape.gradient] is the derivative of
      the sum of the target, [trainable_variables] is a property that builds
      a new list at every read, [zip] stops at the shorter list.
    - TensorFlow and Keras raise (or broadcast) when the shapes of the
      arguments of an operation disagree.  The operations below are total:
      they pair entries up to the shorter argument.  They are what the
      library computes on arguments of agreeing shapes, and the properties of
      the methods are stated for such arguments: a network [well_shaped] for
      its input, a [batch], a [training_set].
    - Printing and plotting are left out. *)

From Stdlib Require Import List Arith Lia Reals Lra Permutation Epsilon.
Import ListNotations.

Open Scope R_scope.

(** ** Tensors *)

Definition vector := list R.
Definition matrix := list (list R).

Inductive tensor : Type :=
| Rank1 (v : vector)
| Rank2 (m : matrix).

(** [zip] of Python: pairs up to the shorter argument. *)
Definition zip {A B} (xs : list A) (ys : list B) : list (A * B) := combine xs ys.

Definition map2 {A B C} (f : A -> B -> C) (xs : list A) (ys : list B) : list C :=
  map (fun p => f (fst p) (snd p)) (zip xs ys).

Definition rsum (xs : list R) : R := fold_right Rplus 0 xs.

(** Elementwise operations on tensors of one shape (on other shapes
    TensorFlow raises or broadcasts). *)
Definition tf_add (a b : matrix) : matrix := map2 (map2 Rplus) a b.
Definition tf_sub (a b : matrix) : matrix := map2 (map2 Rminus) a b.
Definition tf_mul (a b : matrix) : matrix := map2 (map2 Rmult) a b.
Definition tf_square (a : matrix) : matrix := map (map (fun x => x * x)) a.

(** [tf.exp] on a float32 tensor.  The exponential of a real number is never
    zero, but its float32 value can be: a result of at most 2^-150, half of
    the smallest positive float32, is rounded to zero. *)
Definition float32_underflow : R := / 2 ^ 150.
Definition float32_exp (x : R) : R :=
  if Rle_dec (exp x) float32_underflow then 0 else exp x.
Definition tf_exp (v : vector) : vector := map float32_exp v.

(** A rank-1 tensor times a rank-2 tensor, by broadcasting: exact when the
    vector has one entry (shape [1]) or the rows have one entry (shape [N,1]). *)
Definition tf_mul_broadcast (l : vector) (m : matrix) : matrix :=
  map (fun row => flat_map (fun a => map (fun c => c * a) l) row) m.

Definition tf_size (a : matrix) : nat := length (concat a).
Definition tf_reduce_sum (a : matrix) : R := rsum (concat a).
Definition tf_reduce_mean (a : matrix) : R := tf_reduce_sum a / INR (tf_size a).

(** [a[:, lo:hi]], [a[:, 0]] and [tf.stack([a, b], axis=1)]. *)
Definition slice_columns (lo hi : nat) (a : matrix) : matrix :=
  map (fun row => firstn (hi - lo) (skipn lo row)) a.
Definition column_0 (a : matrix) : vector := map (fun row => nth 0 row 0) a.
Definition tf_stack_axis1 (a b : vector) : matrix := map2 (fun x t => [x; t]) a b.

(** The [N,1] tensor of a list of numbers. *)
Definition column (xs : vector) : matrix := map (fun x => [x]) xs.

(** ** The Keras model *)

Inductive activation_fn : Type := tf_nn_tanh.

(** [activation=None] is the linear activation of Keras.  The float32 value
    of tanh is rounded, and is exactly 1.0 or -1.0 for large arguments: the
    properties below only rely on its values lying between -1 and 1, bounds
    included. *)
Definition apply_activation (a : option activation_fn) (x : R) : R :=
  match a with
  | Some tf_nn_tanh => tanh x
  | None => x
  end.

(** A [Dense] layer; the kernel has shape (input width, units). *)
Record Dense : Type := mkDense {
  units : nat;
  activation : option activation_fn;
  kernel : matrix;
  bias : vector
}.

(** The product of a row of the batch with a column of the kernel, which
    have the same length in a network called on a batch of its input width
    (Keras raises on a batch of another width). *)
Definition dot (h c : vector) : R := rsum (map2 Rmult h c).

(** Column [k] of a matrix, [w[:, k]]. *)
Definition column_of (k : nat) (w : matrix) : vector := map (fun row => nth k row 0) w.

(** [activation(dot(input, kernel) + bias)] on one row of the batch. *)
Definition dense_call (l : Dense) (h : vector) : vector :=
  map (fun k => apply_activation (activation l)
                  (dot h (column_of k (kernel l)) + nth k (bias l) 0))
      (seq 0 (units l)).

Definition sequential_row (model : list Dense) (h : vector) : vector :=
  fold_left (fun acc l => dense_call l acc) model h.

(** [u_model(X)]: the layers applied to every row of the batch. *)
Definition sequential_call (model : list Dense) (X : matrix) : matrix :=
  map (sequential_row model) X.

(** The loop of the constructor: one [Dense(width, activation=tf.nn.tanh)] per
    width.  The kernel initializer is random in Keras, so it is an argument;
    the bias starts at zero. *)
Fixpoint add_dense_layers (kernel_initializer : nat -> nat -> nat -> matrix)
    (index input_width : nat) (widths : list nat) : list Dense :=
  match widths with
  | [] => []
  | width :: rest =>
      mkDense width (Some tf_nn_tanh)
              (kernel_initializer index input_width width) (repeat 0 width)
      :: add_dense_layers kernel_initializer (S index) width rest
  end.

(** ** Hyper parameters of the script *)

Definition N_u : nat := 2000.
Definition layers : list nat := [2; 20; 20; 20; 20; 20; 20; 20; 20; 1]%nat.
Definition epochs : nat := 10000.
Definition learning_rate : R := 1 / 1000.

(** ** Trainable variables *)

(** A variable is an object with an identity; its value lives in the model. *)
Inductive var_ref : Type :=
| Kernel (layer : nat)
| Bias (layer : nat)
| Lambda_1
| Lambda_2.

Definition var_ref_eq_dec (a b : var_ref) : {a = b} + {a <> b}.
Proof. repeat decide equality. Defined.

(** An optimizer of Keras: how one variable moves for its gradient, and how
    the optimizer's own state (iteration count, slots) moves in one step. *)
Class OptimizerV2 (O : Type) : Type := {
  resource_apply : O -> var_ref -> tensor -> tensor -> tensor;
  finish_step : O -> list (tensor * var_ref) -> O
}.

(** [tf.keras.optimizers.Adam]: first and second moment slots per variable
    and an iteration count; every entry of a variable moves by
    [lr_t * m / (sqrt v + epsilon)]. *)
Record Adam : Type := mkAdam {
  adam_learning_rate : R;
  beta_1 : R;
  beta_2 : R;
  adam_epsilon : R;
  iterations : nat;
  slot_m : var_ref -> option tensor;
  slot_v : var_ref -> option tensor
}.

Definition tensor_map2 (f : R -> R -> R) (a b : tensor) : tensor :=
  match a, b with
  | Rank1 x, Rank1 y => Rank1 (map2 f x y)
  | Rank2 x, Rank2 y => Rank2 (map2 (map2 f) x y)
  | _, _ => a
  end.

Definition zeros_like (a : tensor) : tensor :=
  match a with
  | Rank1 x => Rank1 (map (fun _ => 0) x)
  | Rank2 x => Rank2 (map (map (fun _ => 0)) x)
  end.

Definition slot_or_zeros (slot : option tensor) (g : tensor) : tensor :=
  match slot with
  | Some t => t
  | None => zeros_like g
  end.

Definition adam_m (opt : Adam) (v : var_ref) (g : tensor) : tensor :=
  tensor_map2 (fun m gi => beta_1 opt * m + (1 - beta_1 opt) * gi)
              (slot_or_zeros (slot_m opt v) g) g.

Definition adam_v (opt : Adam) (v : var_ref) (g : tensor) : tensor :=
  tensor_map2 (fun vi gi => beta_2 opt * vi + (1 - beta_2 opt) * (gi * gi))
              (slot_or_zeros (slot_v opt v) g) g.

Definition adam_apply (opt : Adam) (v : var_ref) (g x : tensor) : tensor :=
  let t := S (iterations opt) in
  let lr_t := adam_learning_rate opt * sqrt (1 - beta_2 opt ^ t) / (1 - beta_1 opt ^ t) in
  tensor_map2 Rminus x
    (tensor_map2 (fun m vi => lr_t * m / (sqrt vi + adam_epsilon opt))
                 (adam_m opt v g) (adam_v opt v g)).

Definition gradient_for (v : var_ref) (grads_and_vars : list (tensor * var_ref)) : option tensor :=
  option_map fst (find (fun gv => if var_ref_eq_dec (snd gv) v then true else false)
                       grads_and_vars).

Definition adam_finish (opt : Adam) (grads_and_vars : list (tensor * var_ref)) : Adam :=
  mkAdam (adam_learning_rate opt) (beta_1 opt) (beta_2 opt) (adam_epsilon opt)
         (S (iterations opt))
         (fun v => match gradient_for v grads_and_vars with
                   | Some g => Some (adam_m opt v g)
                   | None => slot_m opt v
                   end)
         (fun v => match gradient_for v grads_and_vars with
                   | Some g => Some (adam_v opt v g)
                   | None => slot_v opt v
                   end).

#[export] Instance Adam_optimizer : OptimizerV2 Adam := {
  resource_apply := adam_apply;
  finish_step := adam_finish
}.

(** [tf.keras.optimizers.Adam(learning_rate=...)] with the defaults of Keras. *)
Definition new_Adam (learning_rate : R) : Adam :=
  mkAdam learning_rate (9 / 10) (999 / 1000) (1 / 10 ^ 7) 0 (fun _ => None) (fun _ => None).

(** ** Automatic differentiation *)

(** The derivative of [f] at [x], the number a gradient tape returns for a
    differentiable [f]. *)
Definition derivative (f : R -> R) (x : R) : R :=
  epsilon (inhabits 0) (fun d => derivable_pt_lim f x d).

Definition set_nth {A} (i : nat) (v : A) (l : list A) : list A :=
  firstn i l ++ v :: skipn (S i) l.

Definition set_entry (i j : nat) (v : R) (m : matrix) : matrix :=
  set_nth i (set_nth j v (nth i m [])) m.

(** The gradient of a number that depends on a rank-1 or a rank-2 tensor:
    one partial derivative per entry, in the shape of the tensor. *)
Definition gradient_rank1 (f : vector -> R) (xs : vector) : vector :=
  map (fun i => derivative (fun z => f (set_nth i z xs)) (nth i xs 0))
      (seq 0 (length xs)).

Definition gradient_rank2 (f : matrix -> R) (m : matrix) : matrix :=
  map (fun i =>
         map (fun j => derivative (fun z => f (set_entry i j z m)) (nth j (nth i m []) 0))
             (seq 0 (length (nth i m []))))
      (seq 0 (length m)).

(** [tape.gradient(target, source)] for a target that is not a scalar: the
    gradient of the sum of its entries. *)
Definition tape_gradient (target : matrix -> matrix) (source : matrix) : matrix :=
  gradient_rank2 (fun s => tf_reduce_sum (target s)) source.

(** ** The class [PhysicsInformedNN] *)

Section Model.

Context {Opt : Type} `{OptimizerV2 Opt}.

(** The attributes of an instance.  [X_u], [u], [x_f], [t_f] and
    [train_loss_results] do not exist before [fit] has run. *)
Record PhysicsInformedNN : Type := mkPINN {
  u_model : list Dense;
  lambda_1 : vector;
  lambda_2 : vector;
  optimizer : Opt;
  X_u : option matrix;
  u : option matrix;
  x_f : option matrix;
  t_f : option matrix;
  train_loss_results : option (list R)
}.

Definition set_u_model v (s : PhysicsInformedNN) :=
  mkPINN v (lambda_1 s) (lambda_2 s) (optimizer s) (X_u s) (u s) (x_f s) (t_f s)
         (train_loss_results s).
Definition set_lambda_1 v (s : PhysicsInformedNN) :=
  mkPINN (u_model s) v (lambda_2 s) (optimizer s) (X_u s) (u s) (x_f s) (t_f s)
         (train_loss_results s).
Definition set_lambda_2 v (s : PhysicsInformedNN) :=
  mkPINN (u_model s) (lambda_1 s) v (optimizer s) (X_u s) (u s) (x_f s) (t_f s)
         (train_loss_results s).
Definition set_optimizer v (s : PhysicsInformedNN) :=
  mkPINN (u_model s) (lambda_1 s) (lambda_2 s) v (X_u s) (u s) (x_f s) (t_f s)
         (train_loss_results s).
Definition set_X_u v (s : PhysicsInformedNN) :=
  mkPINN (u_model s) (lambda_1 s) (lambda_2 s) (optimizer s) v (u s) (x_f s) (t_f s)
         (train_loss_results s).
Definition set_u v (s : PhysicsInformedNN) :=
  mkPINN (u_model s) (lambda_1 s) (lambda_2 s) (optimizer s) (X_u s) v (x_f s) (t_f s)
         (train_loss_results s).
Definition set_x_f v (s : PhysicsInformedNN) :=
  mkPINN (u_model s) (lambda_1 s) (lambda_2 s) (optimizer s) (X_u s) (u s) v (t_f s)
         (train_loss_results s).
Definition set_t_f v (s : PhysicsInformedNN) :=
  mkPINN (u_model s) (lambda_1 s) (lambda_2 s) (optimizer s) (X_u s) (u s) (x_f s) v
         (train_loss_results s).
Definition set_train_loss_results v (s : PhysicsInformedNN) :=
  mkPINN (u_model s) (lambda_1 s) (lambda_2 s) (optimizer s) (X_u s) (u s) (x_f s) (t_f s) v.

(** *** Methods: a state and exception monad over the instance *)

(** A method takes the instance, returns a value or raises ([None]), and
    leaves the instance in a new state. *)
Definition M (A : Type) : Type := PhysicsInformedNN -> option A * PhysicsInformedNN.

Definition ret {A} (a : A) : M A := fun s => (Some a, s).
Definition bind {A B} (c : M A) (k : A -> M B) : M B :=
  fun s => match c s with
           | (Some a, s') => k a s'
           | (None, s') => (None, s')
           end.
Definition gets {A} (f : PhysicsInformedNN -> A) : M A := fun s => (Some (f s), s).
Definition modify (f : PhysicsInformedNN -> PhysicsInformedNN) : M unit :=
  fun s => (Some tt, f s).
(** Reading an attribute that may not exist yet ([AttributeError]). *)
Definition attr {A} (f : PhysicsInformedNN -> option A) : M A := fun s => (f s, s).

Notation "x <- c ;; k" := (bind c (fun x => k))
  (at level 61, c at next level, right associativity).
Notation "c ;; k" := (bind c (fun _ => k))
  (at level 61, right associativity).

(** *** Variables of the instance *)

Definition empty_dense : Dense := mkDense 0 None [] [].

Definition read_var (s : PhysicsInformedNN) (v : var_ref) : tensor :=
  match v with
  | Kernel i => Rank2 (kernel (nth i (u_model s) empty_dense))
  | Bias i => Rank1 (bias (nth i (u_model s) empty_dense))
  | Lambda_1 => Rank1 (lambda_1 s)
  | Lambda_2 => Rank1 (lambda_2 s)
  end.

Definition set_kernel (w : matrix) (l : Dense) : Dense :=
  mkDense (units l) (activation l) w (bias l).
Definition set_bias (b : vector) (l : Dense) : Dense :=
  mkDense (units l) (activation l) (kernel l) b.

Fixpoint update_layer (i : nat) (f : Dense -> Dense) (model : list Dense) : list Dense :=
  match model with
  | [] => []
  | l :: rest =>
      match i with
      | O => f l :: rest
      | S k => l :: update_layer k f rest
      end
  end.

(** Assigning a variable; a value of the wrong rank is not assigned. *)
Definition write_var (s : PhysicsInformedNN) (v : var_ref) (x : tensor) : PhysicsInformedNN :=
  match v, x with
  | Kernel i, Rank2 w => set_u_model (update_layer i (set_kernel w) (u_model s)) s
  | Bias i, Rank1 b => set_u_model (update_layer i (set_bias b) (u_model s)) s
  | Lambda_1, Rank1 l => set_lambda_1 l s
  | Lambda_2, Rank1 l => set_lambda_2 l s
  | _, _ => s
  end.

(** [layer.trainable_variables] and [model.trainable_variables]: properties
    that build a new list at every read, kernel then bias, layer by layer. *)
Definition layer_trainable_variables (i : nat) : list var_ref := [Kernel i; Bias i].

Definition trainable_variables (s : PhysicsInformedNN) : list var_ref :=
  flat_map layer_trainable_variables (seq 0 (length (u_model s))).

(** [tape.gradient(loss_value, var)]: the loss is a function of the variables
    of the instance. *)
Definition variable_gradient (L : PhysicsInformedNN -> R) (s : PhysicsInformedNN)
    (v : var_ref) : tensor :=
  match read_var s v with
  | Rank1 xs => Rank1 (gradient_rank1 (fun xs' => L (write_var s v (Rank1 xs'))) xs)
  | Rank2 w => Rank2 (gradient_rank2 (fun w' => L (write_var s v (Rank2 w'))) w)
  end.

(** *** The constructor *)

(** [l[-1]]: the last entry of a list; it raises on an empty list. *)
Definition last_entry {A} (l : list A) : option A :=
  match l with
  | [] => None
  | x :: rest => Some (last rest x)
  end.

(** [layers[0]] raises on an empty list, and [self.u_model.layers[-1]] raises
    on a list of one entry, for which the loop adds no layer.  The call
    [self.u_model.layers[-1].trainable_variables.extend(...)] extends the list
    that the property has just built, which nothing keeps: the model is the
    same after it. *)
Definition __init__ (kernel_initializer : nat -> nat -> nat -> matrix)
    (layers : list nat) (optimizer : Opt) : option PhysicsInformedNN :=
  match layers with
  | [] => None
  | input_width :: widths =>
      let u_model := add_dense_layers kernel_initializer 0 input_width widths in
      let lambda_1 := [0] in
      let lambda_2 := [-6] in
      match last_entry u_model with
      | None => None
      | Some _last_layer =>
          let _extended :=
            layer_trainable_variables (length u_model - 1) ++ [Lambda_1; Lambda_2] in
          Some (mkPINN u_model lambda_1 lambda_2 optimizer None None None None None)
      end
  end.

(** *** The residual of the equation *)

Definition f_model : M matrix :=
  l1 <- gets lambda_1 ;;
  l2 <- gets (fun self => tf_exp (lambda_2 self)) ;;
  x_f <- attr x_f ;;
  t_f <- attr t_f ;;
  model <- gets u_model ;;
  let u_of (x t : matrix) :=
    sequential_call model (tf_stack_axis1 (column_0 x) (column_0 t)) in
  let u := u_of x_f t_f in
  let u_x_of (x : matrix) := tape_gradient (fun x' => u_of x' t_f) x in
  let u_x := u_x_of x_f in
  let u_xx := tape_gradient u_x_of x_f in
  let u_t := tape_gradient (fun t' => u_of x_f t') t_f in
  ret (tf_sub (tf_add u_t (tf_mul (tf_mul_broadcast l1 u) u_x))
              (tf_mul_broadcast l2 u_xx)).

(** *** Loss and gradients *)

Definition loss (u u_pred : matrix) : M R :=
  f_pred <- f_model ;;
  ret (tf_reduce_mean (tf_square (tf_sub u u_pred))
       + tf_reduce_mean (tf_square f_pred)).

(** The loss of [grad], seen as a function of the variables. *)
Definition loss_of_variables (X u : matrix) (s : PhysicsInformedNN) : R :=
  match fst (loss u (sequential_call (u_model s) X) s) with
  | Some l => l
  | None => 0
  end.

Definition grad (X u : matrix) : M (R * list tensor) :=
  u_pred <- gets (fun self => sequential_call (u_model self) X) ;;
  loss_value <- loss u u_pred ;;
  var <- gets trainable_variables ;;
  let var := var ++ [Lambda_1; Lambda_2] in
  grads <- gets (fun self => map (variable_gradient (loss_of_variables X u) self) var) ;;
  ret (loss_value, grads).

(** *** Training *)

(** [optimizer.apply_gradients]: every variable of a pair is assigned its new
    value, then the optimizer ends its step. *)
Definition apply_gradients (grads_and_vars : list (tensor * var_ref)) : M unit :=
  opt <- gets optimizer ;;
  modify (fun self =>
            fold_left (fun acc gv =>
                         write_var acc (snd gv)
                           (resource_apply opt (snd gv) (fst gv) (read_var acc (snd gv))))
                      grads_and_vars self) ;;
  modify (set_optimizer (finish_step opt grads_and_vars)).

(** One turn of the loop of [fit]. *)
Definition train_step : M unit :=
  X <- attr X_u ;;
  u <- attr u ;;
  r <- grad X u ;;
  var <- gets trainable_variables ;;
  apply_gradients (zip (snd r) var) ;;
  results <- attr train_loss_results ;;
  modify (set_train_loss_results (Some (results ++ [fst r]))).

Fixpoint training_loop (epochs : nat) : M unit :=
  match epochs with
  | O => ret tt
  | S n => train_step ;; training_loop n
  end.

Definition fit (X_u u : matrix) (epochs : nat) : M unit :=
  modify (set_X_u (Some X_u)) ;;
  modify (set_u (Some u)) ;;
  modify (set_x_f (Some (slice_columns 0 1 X_u))) ;;
  modify (set_t_f (Some (slice_columns 1 2 X_u))) ;;
  modify (set_train_loss_results (Some [])) ;;
  training_loop epochs.

Definition predict (X_star : matrix) : M (matrix * matrix) :=
  u_star <- gets (fun self => sequential_call (u_model self) X_star) ;;
  f_star <- f_model ;;
  ret (u_star, f_star).

End Model.

(** ** The script *)

(** [np.random.choice(a, size, replace=False)]: the first [size] entries of a
    random permutation of [range(a)], or an error when [size] is larger than
    [a].  The permutation drawn by the generator is an argument. *)
Definition np_random_choice (permutation : list nat) (a size : nat) : option (list nat) :=
  if (size <=? a)%nat then Some (firstn size permutation) else None.

(** [a[idx, :]]; an index out of range raises. *)
Fixpoint take_rows (a : matrix) (idx : list nat) : option matrix :=
  match idx with
  | [] => Some []
  | i :: rest =>
      match nth_error a i, take_rows a rest with
      | Some row, Some rows => Some (row :: rows)
      | _, _ => None
      end
  end.

Definition transpose (a : matrix) : matrix :=
  map (fun k => column_of k a) (seq 0 (length (hd [] a))).

Definition matmul (a b : matrix) : matrix :=
  map (fun row => map (fun k => dot row (column_of k b)) (seq 0 (length (hd [] b)))) a.

(** [np.linalg.norm(a, 2)] of a rank-2 array is its largest singular value,
    the square root of the largest eigenvalue of the product of the
    transpose of [a] with [a].  The script passes one-column arrays only, for
    which this product is a 1 x 1 matrix whose only eigenvalue is its entry:
    the function below is the norm of NumPy on these arrays, and on no
    others. *)
Definition np_linalg_norm_2 (a : matrix) : R :=
  sqrt (nth 0 (nth 0 (matmul (transpose a) a) []) 0).

Definition error_u (u_star u_pred : matrix) : R :=
  np_linalg_norm_2 (tf_sub u_star u_pred) / np_linalg_norm_2 u_star.

Definition optimizer_of_script : Adam := new_Adam learning_rate.

(** What one run of the script computes. *)
Record Run : Type := mkRun {
  idx : list nat;
  X_u_train : matrix;
  u_train : matrix;
  pinn : @PhysicsInformedNN Adam;
  u_pred : matrix;
  f_pred : matrix;
  reported_error_u : R
}.

(** The script from the sampling of the training set to the reported error;
    [X_star] and [u_star] are the grid and the exact solution read from the
    data file. *)
Definition main (permutation : list nat) (kernel_initializer : nat -> nat -> nat -> matrix)
    (X_star u_star : matrix) : option Run :=
  match np_random_choice permutation (length X_star) N_u with
  | None => None
  | Some idx =>
      match take_rows X_star idx, take_rows u_star idx,
            __init__ kernel_initializer layers optimizer_of_script with
      | Some X_u_train, Some u_train, Some pinn =>
          match fit X_u_train u_train epochs pinn with
          | (None, _) => None
          | (Some _, pinn) =>
              match predict X_star pinn with
              | (None, _) => None
              | (Some (u_pred, f_pred), pinn) =>
                  Some (mkRun idx X_u_train u_train pinn u_pred f_pred
                              (error_u u_star u_pred))
              end
          end
      | _, _, _ => None
      end
  end.

(** ** Notions of the specification *)

(** What the summary of a model shows of a layer: width and activation. *)
Definition layer_spec (l : Dense) : nat * option activation_fn := (units l, activation l).
Definition architecture (model : list Dense) : list (nat * option activation_fn) :=
  map layer_spec model.

(** The variables of the network, as opposed to the two physical scalars. *)
Definition is_weight (v : var_ref) : Prop :=
  match v with
  | Kernel _ | Bias _ => True
  | Lambda_1 | Lambda_2 => False
  end.

(** The architecture that the specification describes: eight hidden layers of
    width 20 with tanh, and one output of width 1 with the linear activation. *)
Definition architecture_with_linear_output : list (nat * option activation_fn) :=
  repeat (20%nat, Some tf_nn_tanh) 8 ++ [(1%nat, None)].

(** The architecture with tanh on the output layer too. *)
Definition architecture_with_tanh_output : list (nat * option activation_fn) :=
  repeat (20%nat, Some tf_nn_tanh) 8 ++ [(1%nat, Some tf_nn_tanh)].

(** The data and the collocation points that [fit] stores before its loop. *)
Definition stored_data {Opt : Type} (s : @PhysicsInformedNN Opt) :=
  (X_u s, u s, x_f s, t_f s).

(** [fit] has run: the attributes it creates exist. *)
Definition fitted {Opt : Type} (s : @PhysicsInformedNN Opt) : Prop :=
  X_u s <> None /\ u s <> None /\ x_f s <> None /\ t_f s <> None
  /\ train_loss_results s <> None.

(** Two matrices with rows of the same lengths. *)
Definition same_shape (a b : matrix) : Prop := map (@length R) a = map (@length R) b.

(** The mean of a list of numbers. *)
Definition mean (xs : list R) : R := rsum xs / INR (length xs).

(** The squared differences of the entries of two tensors, entry by entry,
    and the squares of the entries of one. *)
Definition squared_differences (a b : matrix) : list R :=
  map2 (fun x y => Rsqr (x - y)) (concat a) (concat b).
Definition squares (a : matrix) : list R := map Rsqr (concat a).

(** The Euclidean norm of the entries of a tensor. *)
Definition euclidean_norm (a : matrix) : R := sqrt (rsum (squares a)).

(** The network as a function of one point: position [x] and time [t]. *)
Definition u_net (model : list Dense) (x t : R) : R :=
  nth 0 (sequential_row model [x; t]) 0.

(** Partial derivatives of a function of position and time. *)
Definition d_dx (g : R -> R -> R) (x t : R) : R := derivative (fun z => g z t) x.
Definition d_dt (g : R -> R -> R) (x t : R) : R := derivative (fun z => g x z) t.


(** The same residual with the viscosity [nu] in place of [exp(lambda_2)]. *)
Definition pde_residual (l1 nu : R) (g : R -> R -> R) (x t : R) : R :=
  d_dt g x t + l1 * g x t * d_dx g x t - nu * d_dx (d_dx g) x t.

(** [f'] is the derivative of [f] everywhere; [f] has a first and a second
    derivative everywhere. *)
Definition differentiable_with (f f' : R -> R) : Prop :=
  forall z, derivable_pt_lim f z (f' z).
Definition twice_differentiable (f : R -> R) : Prop :=
  exists f' f'', differentiable_with f f' /\ differentiable_with f' f''.

(** A vector of functions of one variable, at a point. *)
Definition eval_at (hs : list (R -> R)) (z : R) : vector := map (fun f => f z) hs.

(** A small instance for concrete runs: one tanh unit on two inputs, and
    three collocation points. *)
Definition small_pinn : @PhysicsInformedNN Adam :=
  mkPINN [mkDense 1 (Some tf_nn_tanh) [[1]; [-1]] [0]] [0] [-6] optimizer_of_script
         (Some [[0; 0]; [1; 0]; [1; 2]]) (Some [[0]; [1]; [0]])
         (Some (column [0; 1; 1])) (Some (column [0; 0; 2])) (Some []).

(** A kernel initializer that returns zeros, for concrete runs. *)
Definition zeros_initializer (index input_width width : nat) : matrix :=
  repeat (repeat 0 width) input_width.

(** ** The grid and the bounds of the script *)

(** [a.flatten()] of a rank-2 array: its rows one after the other. *)
Definition flatten (a : matrix) : vector := concat a.

(** [np.meshgrid(x, t)]: two arrays of shape (len t, len x); the first
    repeats [x] on every row, the second holds [t[i]] all along row [i]. *)
Definition np_meshgrid (x t : vector) : matrix * matrix :=
  (map (fun _ => x) t, map (fun ti => map (fun _ => ti) x) t).

(** [np.hstack((a, b))] of two rank-2 arrays: the rows side by side. *)
Definition np_hstack (a b : matrix) : matrix := map2 (@app R) a b.

(** [X_star]: one row (position, time) per point of the grid. *)
Definition X_star_of (x t : vector) : matrix :=
  let (X, T) := np_meshgrid x t in
  np_hstack (column (flatten X)) (column (flatten T)).

(** [u_star]: the exact solution [usol] (one row per position, one column per
    time), transposed then flattened into a column. *)
Definition u_star_of (usol : matrix) : matrix :=
  let Exact_u := transpose usol in
  column (flatten Exact_u).

(** [a.min(axis=0)] and [a.max(axis=0)]; they raise on an array without rows. *)
Definition np_min_axis0 (a : matrix) : option vector :=
  match a with
  | [] => None
  | row :: rest => Some (fold_left (map2 Rmin) rest row)
  end.

Definition np_max_axis0 (a : matrix) : option vector :=
  match a with
  | [] => None
  | row :: rest => Some (fold_left (map2 Rmax) rest row)
  end.

(** The script from the arrays of the data file ([t], [x] flattened, and
    [usol]) to the bounds of the domain and the run of the model. *)
Definition script (permutation : list nat) (kernel_initializer : nat -> nat -> nat -> matrix)
    (t x : vector) (usol : matrix) : option (vector * vector * Run) :=
  let X_star := X_star_of x t in
  let u_star := u_star_of usol in
  match np_min_axis0 X_star, np_max_axis0 X_star with
  | Some lb, Some ub =>
      option_map (fun run => (lb, ub, run))
                 (main permutation kernel_initializer X_star u_star)
  | _, _ => None
  end.

(** ** Further notions *)

(** Two tensors of the same rank. *)
Definition same_rank (a b : tensor) : Prop :=
  match a, b with
  | Rank1 _, Rank1 _ => True
  | Rank2 _, Rank2 _ => True
  | _, _ => False
  end.

(** An optimizer whose update of a variable has the rank of the variable. *)
Definition keeps_rank (Opt : Type) `{OptimizerV2 Opt} : Prop :=
  forall (o : Opt) (v : var_ref) (g x : tensor), same_rank (resource_apply o v g x) x.

(** A variable of a layer that the model has. *)
Definition in_model {Opt : Type} (s : @PhysicsInformedNN Opt) (v : var_ref) : Prop :=
  match v with
  | Kernel i | Bias i => (i < length (u_model s))%nat
  | Lambda_1 | Lambda_2 => False
  end.

(** The assignments of [apply_gradients], one pair after the other. *)
Definition assign_all {Opt : Type} `{OptimizerV2 Opt} (opt : Opt)
    (grads_and_vars : list (tensor * var_ref)) (s : @PhysicsInformedNN Opt)
    : @PhysicsInformedNN Opt :=
  fold_left (fun acc p =>
               write_var acc (snd p)
                 (resource_apply opt (snd p) (fst p) (read_var acc (snd p))))
            grads_and_vars s.

(** The instance with the collocation points replaced by the columns [xs] and
    [ts]. *)
Definition with_points {Opt : Type} (xs ts : vector) (s : @PhysicsInformedNN Opt)
    : @PhysicsInformedNN Opt :=
  set_t_f (Some (column ts)) (set_x_f (Some (column xs)) s).

(** A batch of (position, time) rows, and a training set: a batch with one
    observed value per row. *)
Definition batch (X : matrix) : Prop := Forall (fun row => length row = 2%nat) X.
Definition training_set (X u : matrix) : Prop :=
  batch X /\ Forall (fun row => length row = 1%nat) u /\ length u = length X.

(** ** Shapes *)

(** A matrix whose rows have [w] entries each. *)
Definition rows_of_width (w : nat) (a : matrix) : Prop :=
  Forall (fun row => length row = w) a.

(** A network as the constructor builds it for inputs of width
    [input_width], and as training keeps it: every layer is a tanh layer of
    positive width, its kernel has one row per input of the layer and one
    column per unit, and its bias has one entry per unit.  These are the
    networks that Keras calls without an error on a batch of that width. *)
Fixpoint well_shaped (input_width : nat) (model : list Dense) : Prop :=
  match model with
  | [] => True
  | l :: rest =>
      (0 < units l)%nat
      /\ activation l = Some tf_nn_tanh
      /\ length (kernel l) = input_width
      /\ rows_of_width (units l) (kernel l)
      /\ length (bias l) = units l
      /\ well_shaped (units l) rest
  end.

(** The check of Keras at a call: a [Dense] layer raises a [ValueError] when
    the width of its input is not the number of rows of its kernel.  The call
    of the network on a row and on a batch, with this check. *)
Definition checked_dense_call (l : Dense) (h : vector) : option vector :=
  if (length h =? length (kernel l))%nat then Some (dense_call l h) else None.

Fixpoint checked_sequential_row (model : list Dense) (h : vector) : option vector :=
  match model with
  | [] => Some h
  | l :: rest =>
      match checked_dense_call l h with
      | Some h' => checked_sequential_row rest h'
      | None => None
      end
  end.

Fixpoint checked_sequential_call (model : list Dense) (X : matrix) : option matrix :=
  match X with
  | [] => Some []
  | row :: rows =>
      match checked_sequential_row model row, checked_sequential_call model rows with
      | Some y, Some ys => Some (y :: ys)
      | _, _ => None
      end
  end.

(** An instance for the Burgers equation: a network on (position, time) pairs
    with one output, and two scalars of shape [1]. *)
Definition burgers_network {Opt : Type} (s : @PhysicsInformedNN Opt) : Prop :=
  well_shaped 2 (u_model s)
  /\ last (map units (u_model s)) 0%nat = 1%nat
  /\ length (lambda_1 s) = 1%nat
  /\ length (lambda_2 s) = 1%nat.

(** The instance holds the training set [X], [u] as [fit] stores it. *)
Definition holds_training_set {Opt : Type} (s : @PhysicsInformedNN Opt) (X u : matrix)
    : Prop :=
  training_set X u
  /\ stored_data s
     = (Some X, Some u, Some (slice_columns 0 1 X), Some (slice_columns 1 2 X))
  /\ train_loss_results s <> None.

(** The output of the network of the instance at the point of a row
    (position, time), and the residual of the equation there, with the
    coefficients that [f_model] takes from the two scalars: [lambda_1] and
    the float32 value of [exp(lambda_2)]. *)
Definition prediction_at {Opt : Type} (s : @PhysicsInformedNN Opt) (row : vector) : R :=
  u_net (u_model s) (nth 0 row 0) (nth 1 row 0).
Definition residual_at {Opt : Type} (s : @PhysicsInformedNN Opt) (row : vector) : R :=
  pde_residual (hd 0 (lambda_1 s)) (float32_exp (hd 0 (lambda_2 s)))
               (u_net (u_model s)) (nth 0 row 0) (nth 1 row 0).

(** A kernel initializer that returns a kernel of the shape it is asked for,
    as those of Keras do. *)
Definition shaped_initializer (kernel_initializer : nat -> nat -> nat -> matrix) : Prop :=
  forall index input_width width,
    length (kernel_initializer index input_width width) = input_width
    /\ rows_of_width width (kernel_initializer index input_width width).

(** Two tensors of one shape. *)
Definition same_tensor_shape (a b : tensor) : Prop :=
  match a, b with
  | Rank1 x, Rank1 y => length x = length y
  | Rank2 x, Rank2 y => same_shape x y
  | _, _ => False
  end.

(** The optimizer of the instance gives every variable of the network, for a
    gradient of the shape of the variable, a value of that shape again (Keras
    raises when a variable is assigned a value of another shape). *)
Definition updates_keep_shape {Opt : Type} `{OptimizerV2 Opt} (s : @PhysicsInformedNN Opt)
    : Prop :=
  forall v g, in_model s v ->
    same_tensor_shape g (read_var s v) ->
    same_tensor_shape (resource_apply (optimizer s) v g (read_var s v)) (read_var s v).

(** The slots that Adam holds for the variables of the network have the shapes
    of these variables, as Keras creates them. *)
Definition adam_slots_match (s : @PhysicsInformedNN Adam) : Prop :=
  forall v t, in_model s v ->
    slot_m (optimizer s) v = Some t \/ slot_v (optimizer s) v = Some t ->
    same_tensor_shape t (read_var s v).

(** * Properties *)

(** ** The architecture of the network *)

Lemma add_dense_layers_architecture kernel_initializer index input_width widths :
  architecture (add_dense_layers kernel_initializer index input_width widths)
  = map (fun width => (width, Some tf_nn_tanh)) widths.
Proof.
  revert index input_width.
  induction widths as [|w ws IH]; intros index input_width; simpl.
  - reflexivity.
  - unfold layer_spec at 1. simpl. f_equal. apply IH.
Qed.

Lemma tanh_bounds (x : R) : -1 < tanh x < 1.
Proof.
  unfold tanh, sinh, cosh.
  pose proof (exp_pos x) as Hp. pose proof (exp_pos (- x)) as Hn.
  replace ((exp x - exp (- x)) / 2 / ((exp x + exp (- x)) / 2))
    with ((exp x - exp (- x)) / (exp x + exp (- x))) by (field; lra).
  split.
  - apply Rmult_lt_reg_r with (exp x + exp (- x)); [lra|].
    unfold Rdiv. rewrite Rmult_assoc, Rinv_l by lra. lra.
  - apply Rmult_lt_reg_r with (exp x + exp (- x)); [lra|].
    unfold Rdiv. rewrite Rmult_assoc, Rinv_l by lra. lra.
Qed.

Lemma dense_call_tanh_bounds (l : Dense) (h : vector) :
  activation l = Some tf_nn_tanh ->
  Forall (fun y => -1 < y < 1) (dense_call l h).
Proof.
  intros Ha. unfold dense_call. rewrite Ha. simpl.
  apply Forall_forall. intros y Hy. apply in_map_iff in Hy.
  destruct Hy as [k [<- _]]. apply tanh_bounds.
Qed.

Lemma sequential_row_snoc (model : list Dense) (l : Dense) (h : vector) :
  sequential_row (model ++ [l]) h = dense_call l (sequential_row model h).
Proof. unfold sequential_row. rewrite fold_left_app. reflexivity. Qed.

Lemma architecture_snoc_inv (model : list Dense) arch spec :
  architecture model = arch ++ [spec] ->
  exists model' l, model = model' ++ [l] /\ architecture model' = arch /\ layer_spec l = spec.
Proof.
  intros Ha.
  destruct (exists_last (l := model)) as [model' [l ->]].
  - intros ->. destruct arch; discriminate.
  - exists model', l. unfold architecture in Ha. rewrite map_app in Ha. simpl in Ha.
    apply app_inj_tail in Ha. destruct Ha as [Ha1 Ha2]. auto.
Qed.

Lemma init_with_layers {Opt : Type} `{OptimizerV2 Opt}
    (kernel_initializer : nat -> nat -> nat -> matrix) (opt : Opt) :
  __init__ kernel_initializer layers opt
  = Some (mkPINN (add_dense_layers kernel_initializer 0 2 (tl layers)) [0] [-6] opt
                 None None None None None).
Proof. reflexivity. Qed.

(** C3, as the specification states it, fails: the loop of the constructor
    gives every layer [tf.nn.tanh], the last one too, so the network built
    from [layers] does not have the architecture with a linear output. *)
Lemma C3_linear_output_counterexample :
  exists s,
    __init__ zeros_initializer layers optimizer_of_script = Some s
    /\ last (architecture (u_model s)) (0%nat, None) = (1%nat, Some tf_nn_tanh)
    /\ architecture (u_model s) <> architecture_with_linear_output.
Proof.
  eexists. split; [apply init_with_layers|]. cbn [u_model].
  rewrite add_dense_layers_architecture. split.
  - reflexivity.
  - discriminate.
Qed.

(** The loop of the constructor builds a network that is well shaped for its
    input, when the initializer returns kernels of the shapes asked for. *)
Lemma add_dense_layers_well_shaped kernel_initializer index input_width widths :
  shaped_initializer kernel_initializer ->
  Forall (fun w => (0 < w)%nat) widths ->
  well_shaped input_width (add_dense_layers kernel_initializer index input_width widths).
Proof.
  intros Hk Hw. revert index input_width.
  induction Hw as [|w ws Hpos _ IH]; intros index input_width; simpl.
  - exact I.
  - destruct (Hk index input_width w) as [Hrows Hcols].
    repeat split; try assumption.
    + apply repeat_length.
    + apply IH.
Qed.

(** The check of Keras passes at every layer of a network that is well shaped
    for the width of the row, and the call returns what [sequential_row]
    computes. *)
Lemma checked_row_well_shaped (model : list Dense) (d : nat) (h : vector) :
  well_shaped d model -> length h = d ->
  checked_sequential_row model h = Some (sequential_row model h).
Proof.
  revert d h. induction model as [|l rest IH]; intros d h Hw Hh.
  - reflexivity.
  - destruct Hw as (_ & _ & Hk & _ & _ & Hrest).
    cbn [checked_sequential_row]. unfold checked_dense_call.
    rewrite Hh, Hk, Nat.eqb_refl.
    apply (IH (units l)); [exact Hrest|].
    unfold dense_call. rewrite length_map. apply length_seq.
Qed.

Lemma checked_call_well_shaped (model : list Dense) (d : nat) (X : matrix) :
  well_shaped d model -> rows_of_width d X ->
  checked_sequential_call model X = Some (sequential_call model X).
Proof.
  intros Hw HX. induction HX as [|row rows Hrow _ IH].
  - reflexivity.
  - cbn [checked_sequential_call]. rewrite (checked_row_well_shaped _ d _ Hw Hrow), IH.
    reflexivity.
Qed.

(** A batch of another width than the input of the network raises. *)
Lemma checked_call_raises (l : Dense) (rest : list Dense) (row : vector) (rows : matrix) :
  length row <> length (kernel l) ->
  checked_sequential_call (l :: rest) (row :: rows) = None.
Proof.
  intros Hne. cbn [checked_sequential_call checked_sequential_row].
  unfold checked_dense_call. apply Nat.eqb_neq in Hne. rewrite Hne. reflexivity.
Qed.

(** C3, amended: the network built from [layers] has 2 inputs, exactly eight
    hidden dense layers of width 20 with tanh activation, and a final output
    layer of width 1 whose activation is tanh as well: the output of the
    network is the tanh of the affine function that the last layer computes
    from the output of the hidden layers. *)
Theorem C3_architecture {Opt : Type} `{OptimizerV2 Opt}
    (kernel_initializer : nat -> nat -> nat -> matrix) (opt : Opt) :
  exists s hidden out,
    __init__ kernel_initializer layers opt = Some s
    /\ hd 0%nat layers = 2%nat
    /\ option_map kernel (hd_error (u_model s)) = Some (kernel_initializer 0%nat 2%nat 20%nat)
    /\ (shaped_initializer kernel_initializer -> well_shaped 2 (u_model s))
    /\ architecture (u_model s) = architecture_with_tanh_output
    /\ u_model s = hidden ++ [out]
    /\ architecture hidden = repeat (20%nat, Some tf_nn_tanh) 8
    /\ units out = 1%nat
    /\ activation out = Some tf_nn_tanh
    /\ forall h : vector,
         sequential_row (u_model s) h
         = [tanh (dot (sequential_row hidden h) (column_of 0 (kernel out))
                  + nth 0 (bias out) 0)].
Proof.
  eexists.
  exists (removelast (add_dense_layers kernel_initializer 0 2 (tl layers))),
         (last (add_dense_layers kernel_initializer 0 2 (tl layers)) empty_dense).
  split; [apply init_with_layers|]. cbn [u_model].
  split; [reflexivity|]. split; [reflexivity|].
  split.
  { intros Hk. apply add_dense_layers_well_shaped; [exact Hk|].
    unfold layers. cbn [tl]. repeat constructor. }
  split; [rewrite add_dense_layers_architecture; reflexivity|].
  assert (Hsplit : add_dense_layers kernel_initializer 0 2 (tl layers)
                   = removelast (add_dense_layers kernel_initializer 0 2 (tl layers))
                     ++ [last (add_dense_layers kernel_initializer 0 2 (tl layers))
                              empty_dense])
    by reflexivity.
  split; [exact Hsplit|].
  split; [reflexivity|]. split; [reflexivity|]. split; [reflexivity|].
  intros h. rewrite Hsplit at 1. rewrite sequential_row_snoc. reflexivity.
Qed.


(** ** Reading methods leave the instance as it is *)

Section Reading.

Context {Opt : Type}.
Implicit Types s : @PhysicsInformedNN Opt.

Lemma f_model_state s : snd (f_model s) = s.
Proof.
  unfold f_model, bind, gets, attr, ret. simpl.
  destruct (x_f s); simpl; [|reflexivity].
  destruct (t_f s); reflexivity.
Qed.

Lemma f_model_defined s xf tf :
  x_f s = Some xf -> t_f s = Some tf -> exists f, fst (f_model s) = Some f.
Proof.
  intros Hx Ht. unfold f_model, bind, gets, attr, ret. simpl.
  rewrite Hx, Ht. simpl. eexists. reflexivity.
Qed.

Lemma f_model_raises s : x_f s = None \/ t_f s = None -> fst (f_model s) = None.
Proof.
  intros Hn. unfold f_model, bind, gets, attr, ret. simpl.
  destruct Hn as [-> | Hn]; [reflexivity|].
  destruct (x_f s); [rewrite Hn|]; reflexivity.
Qed.

(** [f_model] reads the collocation points, the network and the two scalars,
    and nothing else. *)
Lemma f_model_depends s s' :
  x_f s = x_f s' -> t_f s = t_f s' -> u_model s = u_model s' ->
  lambda_1 s = lambda_1 s' -> lambda_2 s = lambda_2 s' ->
  fst (f_model s) = fst (f_model s').
Proof.
  intros Hx Ht Hm H1 H2. unfold f_model, bind, gets, attr, ret. simpl.
  rewrite Hx, Ht, Hm, H1, H2. destruct (x_f s'); simpl; [|reflexivity].
  destruct (t_f s'); reflexivity.
Qed.

Lemma predict_run (X_star : matrix) s :
  predict X_star s
  = (option_map (fun f => (sequential_call (u_model s) X_star, f)) (fst (f_model s)), s).
Proof.
  unfold predict, bind, gets, ret. simpl.
  pose proof (f_model_state s) as Hs.
  destruct (f_model s) as [[f|] s']; simpl in *; subst; reflexivity.
Qed.

Lemma loss_run (u u_pred : matrix) s :
  loss u u_pred s
  = (option_map (fun f => tf_reduce_mean (tf_square (tf_sub u u_pred))
                          + tf_reduce_mean (tf_square f))
                (fst (f_model s)), s).
Proof.
  unfold loss, bind, ret.
  pose proof (f_model_state s) as Hs.
  destruct (f_model s) as [[f|] s']; simpl in *; subst; reflexivity.
Qed.

End Reading.

(** ** Training *)

Section Training.

Context {Opt : Type} `{OptimizerV2 Opt}.
Implicit Types s : @PhysicsInformedNN Opt.

Lemma grad_run (X u : matrix) s :
  grad X u s
  = (option_map
       (fun l => (l, map (variable_gradient (loss_of_variables X u) s)
                         (trainable_variables s ++ [Lambda_1; Lambda_2])))
       (fst (loss u (sequential_call (u_model s) X) s)), s).
Proof.
  unfold grad, bind, gets, ret. simpl. rewrite loss_run. simpl.
  destruct (fst (f_model s)); reflexivity.
Qed.

Lemma update_layer_architecture (i : nat) (f : Dense -> Dense) (model : list Dense) :
  (forall l, layer_spec (f l) = layer_spec l) ->
  architecture (update_layer i f model) = architecture model.
Proof.
  intros Hf. revert i. induction model as [|l rest IH]; intros [|i]; simpl;
    try reflexivity.
  - rewrite Hf. reflexivity.
  - rewrite IH. reflexivity.
Qed.

Lemma write_var_architecture s v x :
  architecture (u_model (write_var s v x)) = architecture (u_model s).
Proof.
  destruct v, x; simpl; try reflexivity;
    apply update_layer_architecture; reflexivity.
Qed.

(** Assigning a variable of the network leaves everything else. *)
Lemma write_var_weight s v x :
  is_weight v ->
  lambda_1 (write_var s v x) = lambda_1 s
  /\ lambda_2 (write_var s v x) = lambda_2 s
  /\ stored_data (write_var s v x) = stored_data s
  /\ train_loss_results (write_var s v x) = train_loss_results s
  /\ optimizer (write_var s v x) = optimizer s.
Proof.
  destruct v, x; simpl; intros Hw; try contradiction; repeat split.
Qed.

Lemma trainable_variables_weights s : Forall is_weight (trainable_variables s).
Proof.
  unfold trainable_variables. apply Forall_forall. intros v Hv.
  apply in_flat_map in Hv. destruct Hv as [i [_ Hv]].
  destruct Hv as [<- | [<- | []]]; exact I.
Qed.

Lemma trainable_variables_length s :
  length (trainable_variables s) = (2 * length (u_model s))%nat.
Proof.
  unfold trainable_variables.
  assert (Hg : forall n start,
             length (flat_map layer_trainable_variables (seq start n)) = (2 * n)%nat).
  { induction n as [|n IH]; intros start; simpl.
    - reflexivity.
    - rewrite IH. lia. }
  apply Hg.
Qed.

Lemma lambdas_not_trainable s :
  ~ In Lambda_1 (trainable_variables s) /\ ~ In Lambda_2 (trainable_variables s).
Proof.
  pose proof (trainable_variables_weights s) as Hw.
  rewrite Forall_forall in Hw.
  split; intros Hin; apply Hw in Hin; exact Hin.
Qed.

Lemma zip_snd_Forall {A B} (P : B -> Prop) (xs : list A) (ys : list B) :
  Forall P ys -> Forall (fun p => P (snd p)) (zip xs ys).
Proof.
  intros Hy. apply Forall_forall. intros [a b] Hin.
  apply in_combine_r in Hin. rewrite Forall_forall in Hy. apply Hy, Hin.
Qed.

(** Zipping the images of a longer list with the list: the images of the
    extra entries are dropped, and every entry is paired with its own image. *)
Lemma zip_map_app {A B} (f : A -> B) (xs extra : list A) :
  zip (map f (xs ++ extra)) xs = map (fun x => (f x, x)) xs.
Proof.
  induction xs as [|x xs IH]; simpl.
  - destruct (map f extra); reflexivity.
  - unfold zip in *. simpl. f_equal. exact IH.
Qed.

Lemma zip_length {A B} (xs : list A) (ys : list B) :
  length (zip xs ys) = Nat.min (length xs) (length ys).
Proof. apply length_combine. Qed.

(** The assignments of [apply_gradients] to variables of the network. *)
Lemma assignments_frame (opt : Opt) (gv : list (tensor * var_ref)) s :
  Forall (fun p => is_weight (snd p)) gv ->
  let s' := fold_left (fun acc p =>
                         write_var acc (snd p)
                           (resource_apply opt (snd p) (fst p) (read_var acc (snd p))))
                      gv s in
  lambda_1 s' = lambda_1 s
  /\ lambda_2 s' = lambda_2 s
  /\ stored_data s' = stored_data s
  /\ train_loss_results s' = train_loss_results s
  /\ optimizer s' = optimizer s
  /\ architecture (u_model s') = architecture (u_model s).
Proof.
  intros Hgv. revert s. induction Hgv as [|p gv Hp _ IH]; intros s; simpl.
  - repeat split.
  - specialize (IH (write_var s (snd p)
                      (resource_apply opt (snd p) (fst p) (read_var s (snd p))))).
    simpl in IH. destruct IH as (H1 & H2 & H3 & H4 & H5 & H6).
    destruct (write_var_weight s (snd p)
                (resource_apply opt (snd p) (fst p) (read_var s (snd p))) Hp)
      as (W1 & W2 & W3 & W4 & W5).
    rewrite H1, H2, H3, H4, H5, H6, W1, W2, W3, W4, W5, write_var_architecture.
    repeat split.
Qed.

Lemma apply_gradients_run (gv : list (tensor * var_ref)) s :
  apply_gradients gv s
  = (Some tt,
     set_optimizer (finish_step (optimizer s) gv)
       (fold_left (fun acc p =>
                     write_var acc (snd p)
                       (resource_apply (optimizer s) (snd p) (fst p) (read_var acc (snd p))))
                  gv s)).
Proof. reflexivity. Qed.

(** One turn of the loop, once [fit] has stored its data: it returns, and it
    leaves the two scalars, the data and the architecture as they were. *)
Lemma train_step_frame s :
  fitted s ->
  exists s',
    train_step s = (Some tt, s')
    /\ lambda_1 s' = lambda_1 s
    /\ lambda_2 s' = lambda_2 s
    /\ stored_data s' = stored_data s
    /\ architecture (u_model s') = architecture (u_model s)
    /\ option_map (@length R) (train_loss_results s')
       = option_map (fun r => S (length r)) (train_loss_results s).
Proof.
  intros (HX & Hu & Hx & Ht & Hr).
  destruct (X_u s) as [X|] eqn:EX; [|contradiction].
  destruct (u s) as [uu|] eqn:Eu; [|contradiction].
  destruct (x_f s) as [xf|] eqn:Ex; [|contradiction].
  destruct (t_f s) as [tf|] eqn:Et; [|contradiction].
  destruct (train_loss_results s) as [r|] eqn:Er; [|contradiction].
  destruct (f_model_defined s xf tf Ex Et) as [f Hf].
  unfold train_step, bind, attr. rewrite EX, Eu, grad_run, loss_run, Hf.
  cbn [option_map fst snd gets].
  rewrite apply_gradients_run.
  set (gv := zip _ (trainable_variables s)).
  pose proof (assignments_frame (optimizer s) gv s
                (zip_snd_Forall _ _ _ (trainable_variables_weights s)))
    as (H1 & H2 & H3 & H4 & H5 & H6).
  set (s1 := fold_left _ gv s) in *.
  cbn [train_loss_results set_optimizer]. rewrite H4, Er.
  eexists. split; [reflexivity|].
  cbn [lambda_1 lambda_2 u_model train_loss_results set_train_loss_results set_optimizer].
  repeat split; try assumption.
  cbn [option_map]. rewrite length_app. simpl. f_equal. lia.
Qed.

Lemma training_loop_frame (epochs : nat) s :
  fitted s ->
  exists s',
    training_loop epochs s = (Some tt, s')
    /\ lambda_1 s' = lambda_1 s
    /\ lambda_2 s' = lambda_2 s
    /\ stored_data s' = stored_data s
    /\ architecture (u_model s') = architecture (u_model s)
    /\ option_map (@length R) (train_loss_results s')
       = option_map (fun r => (length r + epochs)%nat) (train_loss_results s).
Proof.
  revert s. induction epochs as [|n IH]; intros s Hs.
  - exists s. simpl. repeat split; try reflexivity.
    destruct (train_loss_results s); simpl; [f_equal; lia | reflexivity].
  - destruct (train_step_frame s Hs) as (s1 & Hrun & H1 & H2 & H3 & H4 & H5).
    assert (Hs1 : fitted s1).
    { destruct Hs as (HX & Hu & Hx & Ht & Hr). unfold stored_data in H3.
      injection H3 as EX Eu Ex Et. unfold fitted. rewrite EX, Eu, Ex, Et.
      repeat split; try assumption.
      destruct (train_loss_results s); [|contradiction].
      destruct (train_loss_results s1); discriminate. }
    destruct (IH s1 Hs1) as (s2 & Hrun2 & G1 & G2 & G3 & G4 & G5).
    exists s2. simpl. unfold bind. rewrite Hrun, Hrun2.
    rewrite G1, G2, G3, G4, G5, H1, H2, H3, H4. repeat split; try reflexivity.
    destruct (train_loss_results s1) as [r1|], (train_loss_results s) as [r|];
      simpl in *; try discriminate; try reflexivity.
    injection H5 as H5. f_equal. lia.
Qed.

(** [fit] returns, and describes the instance it leaves. *)
Lemma fit_frame (X u : matrix) (epochs : nat) s :
  exists s',
    fit X u epochs s = (Some tt, s')
    /\ lambda_1 s' = lambda_1 s
    /\ lambda_2 s' = lambda_2 s
    /\ stored_data s'
       = (Some X, Some u, Some (slice_columns 0 1 X), Some (slice_columns 1 2 X))
    /\ architecture (u_model s') = architecture (u_model s)
    /\ option_map (@length R) (train_loss_results s') = Some epochs.
Proof.
  unfold fit, bind, modify.
  set (s0 := set_train_loss_results _ _).
  assert (Hs0 : fitted s0) by (unfold fitted, s0; simpl; repeat split; discriminate).
  destruct (training_loop_frame epochs s0 Hs0) as (s' & Hrun & H1 & H2 & H3 & H4 & H5).
  exists s'. rewrite Hrun. repeat split; assumption.
Qed.

End Training.


(** Concrete runs of the parts that compute. *)

Example np_random_choice_3_of_5 :
  np_random_choice [3; 0; 4; 1; 2]%nat 5 3 = Some [3; 0; 4]%nat.
Proof. reflexivity. Qed.

Example np_random_choice_too_many :
  np_random_choice [1; 0]%nat 2 3 = None.
Proof. reflexivity. Qed.

Example take_rows_2_0 :
  take_rows [[1; 2]; [3; 4]; [5; 6]] [2; 0]%nat = Some [[5; 6]; [1; 2]].
Proof. reflexivity. Qed.

Example take_rows_out_of_range :
  take_rows [[1; 2]; [3; 4]] [0; 2]%nat = None.
Proof. reflexivity. Qed.

Example trainable_variables_small :
  trainable_variables small_pinn = [Kernel 0; Bias 0].
Proof. reflexivity. Qed.

Example zip_drops_the_scalars :
  zip [1; 2; 3; 4]%nat (trainable_variables small_pinn) = [(1%nat, Kernel 0); (2%nat, Bias 0)].
Proof. reflexivity. Qed.

Example slice_columns_small :
  slice_columns 0 1 [[1; 2]; [3; 4]] = [[1]; [3]]
  /\ slice_columns 1 2 [[1; 2]; [3; 4]] = [[2]; [4]].
Proof. split; reflexivity. Qed.

Example architecture_of_layers :
  architecture (add_dense_layers zeros_initializer 0 2 (tl layers))
  = [(20, Some tf_nn_tanh); (20, Some tf_nn_tanh); (20, Some tf_nn_tanh);
     (20, Some tf_nn_tanh); (20, Some tf_nn_tanh); (20, Some tf_nn_tanh);
     (20, Some tf_nn_tanh); (20, Some tf_nn_tanh); (1, Some tf_nn_tanh)]%nat.
Proof. reflexivity. Qed.

(** ** Shapes *)

Lemma map2_length {A B C} (f : A -> B -> C) (xs : list A) (ys : list B) :
  length (map2 f xs ys) = Nat.min (length xs) (length ys).
Proof. unfold map2, zip. rewrite length_map. apply length_combine. Qed.

Lemma gradient_rank2_length (f : matrix -> R) (m : matrix) :
  length (gradient_rank2 f m) = length m.
Proof. unfold gradient_rank2. rewrite length_map. apply length_seq. Qed.

Lemma tape_gradient_length (target : matrix -> matrix) (source : matrix) :
  length (tape_gradient target source) = length source.
Proof. apply gradient_rank2_length. Qed.

Lemma slice_columns_length (lo hi : nat) (a : matrix) :
  length (slice_columns lo hi a) = length a.
Proof. apply length_map. Qed.

Lemma slice_columns_0_1 (a : matrix) :
  Forall (fun row => length row = 2%nat) a ->
  slice_columns 0 1 a = column (column_of 0 a).
Proof.
  intros Ha. unfold slice_columns, column, column_of. rewrite map_map.
  apply map_ext_in. intros row Hrow. rewrite Forall_forall in Ha.
  specialize (Ha row Hrow). destruct row as [|x [|t [|? ?]]]; try discriminate.
  reflexivity.
Qed.

Lemma slice_columns_1_2 (a : matrix) :
  Forall (fun row => length row = 2%nat) a ->
  slice_columns 1 2 a = column (column_of 1 a).
Proof.
  intros Ha. unfold slice_columns, column, column_of. rewrite map_map.
  apply map_ext_in. intros row Hrow. rewrite Forall_forall in Ha.
  specialize (Ha row Hrow). destruct row as [|x [|t [|? ?]]]; try discriminate.
  reflexivity.
Qed.

Lemma column_0_column (xs : vector) : column_0 (column xs) = xs.
Proof.
  unfold column_0, column. rewrite map_map. simpl. apply map_id.
Qed.

(** Stacking the two columns of a two-column matrix gives the matrix back. *)
Lemma stack_columns (a : matrix) :
  Forall (fun row => length row = 2%nat) a ->
  tf_stack_axis1 (column_of 0 a) (column_of 1 a) = a.
Proof.
  induction 1 as [|row a Hrow _ IH].
  - reflexivity.
  - destruct row as [|x [|t [|? ?]]]; try discriminate.
    unfold tf_stack_axis1, map2, zip in *. simpl. f_equal. exact IH.
Qed.

Lemma f_model_length {Opt : Type} (s : @PhysicsInformedNN Opt) (xf tf : matrix) :
  x_f s = Some xf -> t_f s = Some tf -> length tf = length xf ->
  exists f, fst (f_model s) = Some f /\ length f = length xf.
Proof.
  intros Hx Ht Hlen. unfold f_model, bind, gets, attr, ret. simpl.
  rewrite Hx, Ht. simpl. eexists. split; [reflexivity|].
  unfold tf_sub, tf_add, tf_mul, tf_mul_broadcast, sequential_call, tf_stack_axis1,
    column_0.
  repeat (rewrite ?map2_length, ?length_map, ?tape_gradient_length).
  rewrite Hlen. repeat rewrite Nat.min_id. reflexivity.
Qed.

(** ** The claims on [fit] and [predict] *)

(** C1 (the code departs from the claim): the gradient of the loss is taken
    with respect to the weights and to the two scalars, but [fit] pairs the
    gradients with the weights only, so that the two scalars never receive an
    update: after [fit], for every training set and every number of epochs,
    [lambda_1] and [lambda_2] still hold their initial values 0.0 and -6.0.
    In every turn of the loop the list of gradients is two entries longer than
    the list of variables it is zipped with: every weight is paired with its
    own gradient, and the gradients of the two scalars are dropped. *)
Theorem C1_lambdas_never_updated {Opt : Type} `{OptimizerV2 Opt}
    (kernel_initializer : nat -> nat -> nat -> matrix) (opt : Opt)
    (X u : matrix) (epochs : nat) :
  exists s0 s',
    __init__ kernel_initializer layers opt = Some s0
    /\ fit X u epochs s0 = (Some tt, s')
    /\ lambda_1 s' = [0] /\ lambda_2 s' = [-6]
    /\ forall s : @PhysicsInformedNN Opt, fitted s ->
         exists loss_value grads,
           fst (grad X u s) = Some (loss_value, grads)
           /\ length grads = (length (trainable_variables s) + 2)%nat
           /\ zip grads (trainable_variables s)
              = map (fun v => (variable_gradient (loss_of_variables X u) s v, v))
                    (trainable_variables s)
           /\ ~ In Lambda_1 (trainable_variables s)
           /\ ~ In Lambda_2 (trainable_variables s).
Proof.
  eexists. destruct (fit_frame X u epochs
                       (mkPINN (add_dense_layers kernel_initializer 0 2 (tl layers))
                               [0] [-6] opt None None None None None))
    as (s' & Hrun & H1 & H2 & _).
  exists s'. split; [apply init_with_layers|]. split; [exact Hrun|].
  split; [exact H1|]. split; [exact H2|].
  intros s (_ & _ & Hx & Ht & _).
  destruct (x_f s) as [xf|] eqn:Ex; [|contradiction].
  destruct (t_f s) as [tf|] eqn:Et; [|contradiction].
  destruct (f_model_defined s xf tf Ex Et) as [f Hf].
  rewrite grad_run, loss_run, Hf. cbn [fst option_map].
  eexists. eexists. split; [reflexivity|].
  split; [rewrite length_map, length_app; reflexivity|].
  split.
  - apply zip_map_app.
  - apply lambdas_not_trainable.
Qed.

(** C9: [predict] leaves the instance as it found it: the weights, [lambda_1],
    [lambda_2], the stored collocation points and the optimizer are the same
    after the call, for every input batch; the same holds of its two parts,
    the forward pass (a read of [u_model]) and [f_model]. *)
Theorem C9_predict_stateless {Opt : Type} (X_star : matrix) (s : @PhysicsInformedNN Opt) :
  snd (predict X_star s) = s
  /\ snd (f_model s) = s
  /\ u_model (snd (predict X_star s)) = u_model s
  /\ lambda_1 (snd (predict X_star s)) = lambda_1 s
  /\ lambda_2 (snd (predict X_star s)) = lambda_2 s
  /\ x_f (snd (predict X_star s)) = x_f s
  /\ t_f (snd (predict X_star s)) = t_f s
  /\ optimizer (snd (predict X_star s)) = optimizer s.
Proof.
  rewrite predict_run, f_model_state. simpl. repeat split.
Qed.

(** ** The loss *)

Lemma map2_cons {A B C} (f : A -> B -> C) x xs y ys :
  map2 f (x :: xs) (y :: ys) = f x y :: map2 f xs ys.
Proof. reflexivity. Qed.

Lemma map2_app {A B C} (f : A -> B -> C) xs1 xs2 ys1 ys2 :
  length xs1 = length ys1 ->
  map2 f (xs1 ++ xs2) (ys1 ++ ys2) = map2 f xs1 ys1 ++ map2 f xs2 ys2.
Proof.
  revert ys1. induction xs1 as [|x xs1 IH]; intros [|y ys1] Hlen; try discriminate.
  - reflexivity.
  - simpl. rewrite !map2_cons. f_equal. apply IH. simpl in Hlen. lia.
Qed.

Lemma concat_map2 (f : R -> R -> R) (a b : matrix) :
  same_shape a b ->
  concat (map2 (map2 f) a b) = map2 f (concat a) (concat b).
Proof.
  unfold same_shape. revert b. induction a as [|ra a IH]; intros [|rb b] Hs;
    try discriminate.
  - reflexivity.
  - simpl in Hs. injection Hs as Hr Hs.
    rewrite map2_cons. simpl. rewrite map2_app by assumption.
    f_equal. apply IH, Hs.
Qed.

Lemma map2_map {A B C D} (g : C -> D) (f : A -> B -> C) xs ys :
  map g (map2 f xs ys) = map2 (fun x y => g (f x y)) xs ys.
Proof. unfold map2. rewrite map_map. reflexivity. Qed.

(** The mean squared error of TensorFlow is the mean of the squared
    differences. *)
Lemma reduce_mean_square_sub (a b : matrix) :
  same_shape a b ->
  tf_reduce_mean (tf_square (tf_sub a b)) = mean (squared_differences a b).
Proof.
  intros Hs. unfold tf_reduce_mean, tf_reduce_sum, tf_size, tf_square, tf_sub, mean,
    squared_differences.
  rewrite <- concat_map, concat_map2 by assumption.
  rewrite map2_map. reflexivity.
Qed.

Lemma reduce_mean_square (a : matrix) :
  tf_reduce_mean (tf_square a) = mean (squares a).
Proof.
  unfold tf_reduce_mean, tf_reduce_sum, tf_size, tf_square, mean, squares.
  rewrite <- concat_map. reflexivity.
Qed.

(** C4: for every [u] and [u_pred] of one shape, the loss is the mean of the
    squared differences of [u] and [u_pred] plus the mean of the squares of
    the residual [f_pred] that [f_model] returns. *)
Theorem C4_loss {Opt : Type} (s : @PhysicsInformedNN Opt) (u u_pred : matrix) :
  same_shape u u_pred ->
  fst (loss u u_pred s)
  = option_map (fun f_pred => mean (squared_differences u u_pred) + mean (squares f_pred))
               (fst (f_model s)).
Proof.
  intros Hs. rewrite loss_run. cbn [fst].
  destruct (fst (f_model s)) as [f|]; [|reflexivity].
  cbn [option_map]. rewrite reduce_mean_square_sub, reduce_mean_square by assumption.
  reflexivity.
Qed.

Lemma C4_loss_witness :
  fst (loss [[1]; [2]] [[0]; [3]]
         (mkPINN [] [0] [-6] optimizer_of_script None None (Some [[0]; [1]])
                 (Some [[0]; [1]]) None))
  = option_map (fun f_pred => mean (squared_differences [[1]; [2]] [[0]; [3]])
                              + mean (squares f_pred))
               (fst (f_model
                       (mkPINN [] [0] [-6] optimizer_of_script None None
                               (Some [[0]; [1]]) (Some [[0]; [1]]) None))).
Proof.
  apply (C4_loss (mkPINN [] [0] [-6] optimizer_of_script None None (Some [[0]; [1]])
                         (Some [[0]; [1]]) None)
                 [[1]; [2]] [[0]; [3]]).
  reflexivity.
Defined.

(** ** The script: sampling, training, error *)

Lemma np_random_choice_sample (permutation : list nat) (a size : nat) :
  Permutation permutation (seq 0 a) -> (size <= a)%nat ->
  exists idx,
    np_random_choice permutation a size = Some idx
    /\ NoDup idx /\ length idx = size /\ Forall (fun i => (i < a)%nat) idx.
Proof.
  intros Hp Hle. unfold np_random_choice.
  destruct (Nat.leb_spec size a) as [_|Hlt]; [|lia].
  exists (firstn size permutation). split; [reflexivity|].
  assert (Hnd : NoDup permutation)
    by (apply (Permutation_NoDup (Permutation_sym Hp)), seq_NoDup).
  assert (Hlen : length permutation = a)
    by (rewrite (Permutation_length Hp); apply length_seq).
  split; [|split].
  - rewrite <- (firstn_skipn size permutation) in Hnd.
    apply NoDup_app_remove_r in Hnd. exact Hnd.
  - apply firstn_length_le. lia.
  - apply Forall_forall. intros i Hi.
    assert (Hin : In i permutation).
    { rewrite <- (firstn_skipn size permutation). apply in_or_app. left. exact Hi. }
    apply (Permutation_in _ Hp) in Hin. apply in_seq in Hin. lia.
Qed.

Lemma take_rows_rows (a : matrix) (idx : list nat) :
  Forall (fun i => (i < length a)%nat) idx ->
  exists rows,
    take_rows a idx = Some rows
    /\ Forall2 (fun i row => nth_error a i = Some row) idx rows.
Proof.
  induction 1 as [|i idx Hi _ IH].
  - exists []. split; [reflexivity | constructor].
  - destruct IH as (rows & Hrows & Hall).
    destruct (nth_error a i) as [row|] eqn:Erow.
    + exists (row :: rows). simpl. rewrite Erow, Hrows. split; [reflexivity|].
      constructor; assumption.
    + apply nth_error_None in Erow. lia.
Qed.

Lemma dense_call_length (l : Dense) (h : vector) : length (dense_call l h) = units l.
Proof. unfold dense_call. rewrite length_map. apply length_seq. Qed.

Lemma sequential_row_width (model : list Dense) arch (n : nat) act (h : vector) :
  architecture model = arch ++ [(n, act)] ->
  length (sequential_row model h) = n.
Proof.
  intros Ha. apply architecture_snoc_inv in Ha.
  destruct Ha as (model' & l & -> & _ & Hl).
  rewrite sequential_row_snoc, dense_call_length.
  unfold layer_spec in Hl. congruence.
Qed.

(** The script, step by step, when the grid has at least [N_u] points. *)
Lemma main_run (permutation : list nat) (kernel_initializer : nat -> nat -> nat -> matrix)
    (X_star u_star : matrix) :
  Permutation permutation (seq 0 (length X_star)) ->
  (N_u <= length X_star)%nat ->
  length u_star = length X_star ->
  exists idx X_u_train u_train s0 s' f_star,
    np_random_choice permutation (length X_star) N_u = Some idx
    /\ NoDup idx /\ length idx = N_u
    /\ Forall2 (fun i row => nth_error X_star i = Some row) idx X_u_train
    /\ Forall2 (fun i row => nth_error u_star i = Some row) idx u_train
    /\ __init__ kernel_initializer layers optimizer_of_script = Some s0
    /\ fit X_u_train u_train epochs s0 = (Some tt, s')
    /\ architecture (u_model s') = architecture_with_tanh_output
    /\ main permutation kernel_initializer X_star u_star
       = Some (mkRun idx X_u_train u_train s' (sequential_call (u_model s') X_star) f_star
                     (error_u u_star (sequential_call (u_model s') X_star))).
Proof.
  intros Hp Hle Hlen.
  destruct (np_random_choice_sample permutation (length X_star) N_u Hp Hle)
    as (idx & Hidx & Hnd & Hl & Hlt).
  destruct (take_rows_rows X_star idx Hlt) as (Xtr & HX & HXrows).
  assert (Hlt' : Forall (fun i => (i < length u_star)%nat) idx)
    by (rewrite Hlen; exact Hlt).
  destruct (take_rows_rows u_star idx Hlt') as (utr & Hu & Hurows).
  pose proof (init_with_layers kernel_initializer optimizer_of_script) as Hinit.
  set (s0 := mkPINN _ _ _ _ _ _ _ _ _) in Hinit.
  destruct (fit_frame Xtr utr epochs s0) as (s' & Hrun & _ & _ & Hd & Ha & _).
  unfold stored_data in Hd. injection Hd as _ _ Hx Ht.
  destruct (f_model_defined s' _ _ Hx Ht) as [f Hf].
  exists idx, Xtr, utr, s0, s', f.
  assert (Harch : architecture (u_model s') = architecture_with_tanh_output).
  { rewrite Ha. unfold s0. cbn [u_model].
    rewrite add_dense_layers_architecture. reflexivity. }
  repeat (split; [assumption|]).
  unfold main. rewrite Hidx, HX, Hu, Hinit, Hrun, predict_run, Hf. reflexivity.
Qed.

(** C7: the training set is a sample of [N_u] = 2000 rows of the grid drawn
    without replacement: the script returns, the indices drawn are pairwise
    distinct, there are 2000 of them, and [X_u_train] and [u_train] are the
    rows of [X_star] and of [u_star] at these indices, in order. *)
Theorem C7_training_sample (permutation : list nat)
    (kernel_initializer : nat -> nat -> nat -> matrix) (X_star u_star : matrix) :
  Permutation permutation (seq 0 (length X_star)) ->
  (N_u <= length X_star)%nat ->
  length u_star = length X_star ->
  exists run,
    main permutation kernel_initializer X_star u_star = Some run
    /\ N_u = 2000%nat
    /\ NoDup (idx run)
    /\ length (idx run) = N_u
    /\ length (X_u_train run) = N_u
    /\ length (u_train run) = N_u
    /\ Forall2 (fun i row => nth_error X_star i = Some row) (idx run) (X_u_train run)
    /\ Forall2 (fun i row => nth_error u_star i = Some row) (idx run) (u_train run).
Proof.
  intros Hp Hle Hlen.
  destruct (main_run permutation kernel_initializer X_star u_star Hp Hle Hlen)
    as (ids & Xtr & utr & s0 & s' & f & _ & Hnd & Hl & HX & Hu & _ & _ & _ & Hmain).
  eexists. split; [exact Hmain|]. cbn [idx X_u_train u_train].
  split; [reflexivity|]. split; [exact Hnd|]. split; [exact Hl|].
  split; [rewrite <- (Forall2_length HX); exact Hl|].
  split; [rewrite <- (Forall2_length Hu); exact Hl|].
  split; assumption.
Qed.

Lemma C7_training_sample_witness :
  exists run,
    main (rev (seq 0 N_u)) zeros_initializer (repeat [0; 0] N_u) (repeat [0] N_u) = Some run
    /\ N_u = 2000%nat
    /\ NoDup (idx run)
    /\ length (idx run) = N_u
    /\ length (X_u_train run) = N_u
    /\ length (u_train run) = N_u
    /\ Forall2 (fun i row => nth_error (repeat [0; 0] N_u) i = Some row)
               (idx run) (X_u_train run)
    /\ Forall2 (fun i row => nth_error (repeat [0] N_u) i = Some row)
               (idx run) (u_train run).
Proof.
  apply (C7_training_sample (rev (seq 0 N_u)) zeros_initializer
           (repeat [0; 0] N_u) (repeat [0] N_u)).
  - rewrite repeat_length. apply Permutation_sym, Permutation_rev.
  - rewrite repeat_length. apply Nat.le_refl.
  - rewrite !repeat_length. reflexivity.
Defined.

(** ** The relative error *)

Lemma column_of_rows (a : matrix) :
  Forall (fun row => length row = 1%nat) a -> a = column (column_0 a).
Proof.
  induction 1 as [|row a Hrow _ IH].
  - reflexivity.
  - destruct row as [|x [|? ?]]; try discriminate.
    simpl. f_equal. exact IH.
Qed.

Lemma tf_sub_column (a b : vector) :
  tf_sub (column a) (column b) = column (map2 Rminus a b).
Proof.
  unfold tf_sub. revert b. induction a as [|x a IH]; intros [|y b]; try reflexivity.
  simpl. rewrite !map2_cons. simpl. f_equal. apply IH.
Qed.

Lemma concat_column (v : vector) : concat (column v) = v.
Proof. induction v as [|x v IH]; simpl; [|rewrite IH]; reflexivity. Qed.

Lemma column_of_0_column (v : vector) : column_of 0 (column v) = v.
Proof. apply column_0_column. Qed.

Lemma map2_diag {A B} (f : A -> A -> B) (v : list A) :
  map2 f v v = map (fun x => f x x) v.
Proof. induction v as [|x v IH]; [reflexivity|]. rewrite map2_cons, IH. reflexivity. Qed.

(** On a one-column matrix, the 2-norm of NumPy (the largest singular value)
    is the Euclidean norm of the entries. *)
Lemma np_linalg_norm_2_column (v : vector) :
  np_linalg_norm_2 (column v) = euclidean_norm (column v).
Proof.
  unfold np_linalg_norm_2, euclidean_norm, squares. rewrite concat_column.
  destruct v as [|x v].
  - reflexivity.
  - unfold transpose, matmul.
    change (hd [] (column (x :: v))) with [x]. cbn [length seq map nth].
    rewrite column_of_0_column. unfold dot. rewrite map2_diag. reflexivity.
Qed.

(** ** Derivatives *)

Lemma derivative_unique (f : R -> R) (x d : R) :
  derivable_pt_lim f x d -> derivative f x = d.
Proof.
  intros Hd. unfold derivative.
  apply (uniqueness_limite f x); [|exact Hd].
  apply epsilon_spec. exists d. exact Hd.
Qed.

Lemma derivable_pt_lim_ext (f g : R -> R) (x d : R) :
  (forall z, f z = g z) -> derivable_pt_lim f x d -> derivable_pt_lim g x d.
Proof.
  intros Hfg Hd eps Heps. destruct (Hd eps Heps) as [delta Hdelta].
  exists delta. intros h Hh Hlt. rewrite <- !Hfg. apply Hdelta; assumption.
Qed.

Lemma cosh_pos (x : R) : 0 < cosh x.
Proof.
  unfold cosh. pose proof (exp_pos x). pose proof (exp_pos (- x)). lra.
Qed.

Lemma derivable_pt_lim_tanh (x : R) :
  derivable_pt_lim tanh x (1 - tanh x * tanh x).
Proof.
  pose proof (cosh_pos x) as Hc.
  replace (1 - tanh x * tanh x)
    with ((cosh x * cosh x - sinh x * sinh x) / Rsqr (cosh x)).
  - apply (derivable_pt_lim_div sinh cosh).
    + apply derivable_pt_lim_sinh.
    + apply derivable_pt_lim_cosh.
    + lra.
  - unfold tanh, Rsqr. field. lra.
Qed.

Section Differentiable.

Variables f g f' g' : R -> R.
Hypothesis Hf : differentiable_with f f'.
Hypothesis Hg : differentiable_with g g'.

Lemma dw_const (c : R) : differentiable_with (fun _ => c) (fun _ => 0).
Proof. intros z. apply (derivable_pt_lim_const c). Qed.

Lemma dw_id : differentiable_with (fun z => z) (fun _ => 1).
Proof. intros z. apply derivable_pt_lim_id. Qed.

Lemma dw_plus : differentiable_with (fun z => f z + g z) (fun z => f' z + g' z).
Proof. intros z. apply (derivable_pt_lim_plus f g); [apply Hf | apply Hg]. Qed.

Lemma dw_minus : differentiable_with (fun z => f z - g z) (fun z => f' z - g' z).
Proof. intros z. apply (derivable_pt_lim_minus f g); [apply Hf | apply Hg]. Qed.

Lemma dw_mult :
  differentiable_with (fun z => f z * g z) (fun z => f' z * g z + f z * g' z).
Proof. intros z. apply (derivable_pt_lim_mult f g); [apply Hf | apply Hg]. Qed.

Lemma dw_tanh :
  differentiable_with (fun z => tanh (f z))
                      (fun z => (1 - tanh (f z) * tanh (f z)) * f' z).
Proof.
  intros z. apply (derivable_pt_lim_comp f tanh); [apply Hf|].
  apply derivable_pt_lim_tanh.
Qed.

End Differentiable.

Lemma td_ext (f g : R -> R) :
  (forall z, f z = g z) -> twice_differentiable f -> twice_differentiable g.
Proof.
  intros Hfg (f' & f'' & H1 & H2). exists f', f''. split; [|exact H2].
  intros z. apply (derivable_pt_lim_ext f g); [exact Hfg | apply H1].
Qed.

Lemma td_const (c : R) : twice_differentiable (fun _ => c).
Proof. exists (fun _ => 0), (fun _ => 0). split; apply dw_const. Qed.

Lemma td_id : twice_differentiable (fun z => z).
Proof. exists (fun _ => 1), (fun _ => 0). split; [apply dw_id | apply dw_const]. Qed.

Lemma td_plus (f g : R -> R) :
  twice_differentiable f -> twice_differentiable g ->
  twice_differentiable (fun z => f z + g z).
Proof.
  intros (f' & f'' & Hf1 & Hf2) (g' & g'' & Hg1 & Hg2).
  exists (fun z => f' z + g' z), (fun z => f'' z + g'' z).
  split; apply dw_plus; assumption.
Qed.

Lemma td_scale (f : R -> R) (c : R) :
  twice_differentiable f -> twice_differentiable (fun z => f z * c).
Proof.
  intros (f' & f'' & Hf1 & Hf2).
  exists (fun z => f' z * c + f z * 0), (fun z => f'' z * c + f' z * 0 + (f' z * 0 + f z * 0)).
  split.
  - apply (dw_mult f (fun _ => c) f' (fun _ => 0) Hf1 (dw_const c)).
  - apply (dw_plus (fun z => f' z * c) (fun z => f z * 0)
                   (fun z => f'' z * c + f' z * 0) (fun z => f' z * 0 + f z * 0)).
    + apply (dw_mult f' (fun _ => c) f'' (fun _ => 0) Hf2 (dw_const c)).
    + apply (dw_mult f (fun _ => 0) f' (fun _ => 0) Hf1 (dw_const 0)).
Qed.

Lemma td_tanh (f : R -> R) :
  twice_differentiable f -> twice_differentiable (fun z => tanh (f z)).
Proof.
  intros (f' & f'' & Hf1 & Hf2).
  pose proof (dw_tanh f f' Hf1) as Ht.
  eexists. eexists. split; [exact Ht|].
  apply (dw_mult (fun z => 1 - tanh (f z) * tanh (f z)) f').
  - apply (dw_minus (fun _ => 1) (fun z => tanh (f z) * tanh (f z))).
    + apply dw_const.
    + apply (dw_mult (fun z => tanh (f z)) (fun z => tanh (f z))); exact Ht.
  - exact Hf2.
Qed.

Lemma td_activation (a : option activation_fn) (f : R -> R) :
  twice_differentiable f -> twice_differentiable (fun z => apply_activation a (f z)).
Proof.
  intros Hf. destruct a as [[]|]; simpl.
  - apply td_tanh, Hf.
  - apply (td_ext f); [reflexivity | exact Hf].
Qed.

(** What [twice_differentiable] says of the derivative that the tape returns. *)
Lemma td_derivative (f : R -> R) :
  twice_differentiable f ->
  (forall z, derivable_pt_lim f z (derivative f z))
  /\ (forall z, derivable_pt_lim (fun y => derivative f y) z
                                 (derivative (fun y => derivative f y) z)).
Proof.
  intros (f' & f'' & H1 & H2).
  assert (Heq : forall z, f' z = derivative f z)
    by (intros z; symmetry; apply derivative_unique, H1).
  split.
  - intros z. rewrite <- Heq. apply H1.
  - intros z.
    assert (Hd : derivable_pt_lim (fun y => derivative f y) z (f'' z))
      by (apply (derivable_pt_lim_ext f'); [exact Heq | apply H2]).
    rewrite (derivative_unique _ _ _ Hd). exact Hd.
Qed.

(** ** The network is twice differentiable in each input *)

Lemma td_dot (hs : list (R -> R)) (c : vector) :
  Forall twice_differentiable hs ->
  twice_differentiable (fun z => dot (eval_at hs z) c).
Proof.
  intros Hhs. revert c. induction Hhs as [|h hs Hh _ IH]; intros c.
  - apply (td_const 0).
  - destruct c as [|c0 c].
    + apply (td_const 0).
    + apply (td_ext (fun z => h z * c0 + dot (eval_at hs z) c)).
      * intros z. reflexivity.
      * apply td_plus; [apply td_scale, Hh | apply IH].
Qed.

Lemma dense_call_td (l : Dense) (hs : list (R -> R)) :
  Forall twice_differentiable hs ->
  exists hs',
    (forall z, dense_call l (eval_at hs z) = eval_at hs' z)
    /\ Forall twice_differentiable hs'.
Proof.
  intros Hhs.
  exists (map (fun k z => apply_activation (activation l)
                            (dot (eval_at hs z) (column_of k (kernel l))
                             + nth k (bias l) 0))
              (seq 0 (units l))).
  split.
  - intros z. unfold dense_call, eval_at at 2. rewrite map_map. reflexivity.
  - apply Forall_forall. intros h Hin. apply in_map_iff in Hin.
    destruct Hin as [k [<- _]].
    apply (td_activation (activation l)
             (fun z => dot (eval_at hs z) (column_of k (kernel l)) + nth k (bias l) 0)).
    apply (td_plus (fun z => dot (eval_at hs z) (column_of k (kernel l)))
                   (fun _ => nth k (bias l) 0)).
    + apply td_dot, Hhs.
    + apply td_const.
Qed.

Lemma sequential_row_td (model : list Dense) (hs : list (R -> R)) :
  Forall twice_differentiable hs ->
  exists hs',
    (forall z, sequential_row model (eval_at hs z) = eval_at hs' z)
    /\ Forall twice_differentiable hs'.
Proof.
  revert hs. induction model as [|l model IH]; intros hs Hhs.
  - exists hs. split; [reflexivity | exact Hhs].
  - destruct (dense_call_td l hs Hhs) as (hs1 & Heq1 & Hhs1).
    destruct (IH hs1 Hhs1) as (hs2 & Heq2 & Hhs2).
    exists hs2. split; [|exact Hhs2].
    intros z. unfold sequential_row in *. simpl. rewrite Heq1. apply Heq2.
Qed.

Lemma nth_eval_at (k : nat) (hs : list (R -> R)) (z : R) :
  nth k (eval_at hs z) 0 = nth k hs (fun _ => 0) z.
Proof.
  unfold eval_at.
  apply (map_nth (fun f : R -> R => f z) hs (fun _ => 0) k).
Qed.

Lemma first_output_td (model : list Dense) (hs : list (R -> R)) :
  Forall twice_differentiable hs ->
  twice_differentiable (fun z => nth 0 (sequential_row model (eval_at hs z)) 0).
Proof.
  intros Hhs. destruct (sequential_row_td model hs Hhs) as (hs' & Heq & Hhs').
  apply (td_ext (nth 0 hs' (fun _ => 0))).
  - intros z. rewrite Heq, nth_eval_at. reflexivity.
  - destruct (nth_in_or_default 0 hs' (fun _ => 0)) as [Hin | ->].
    + rewrite Forall_forall in Hhs'. apply Hhs', Hin.
    + apply (td_const 0).
Qed.

(** The network has a first and a second derivative in the position, and in
    the time, at every point and for all weights. *)
Lemma u_net_td_position (model : list Dense) (t : R) :
  twice_differentiable (fun z => u_net model z t).
Proof.
  apply (first_output_td model [fun z => z; fun _ => t]).
  repeat constructor; [apply td_id | apply td_const].
Qed.

Lemma u_net_td_time (model : list Dense) (x : R) :
  twice_differentiable (fun z => u_net model x z).
Proof.
  apply (first_output_td model [fun _ => x; fun z => z]).
  repeat constructor; [apply td_const | apply td_id].
Qed.

Lemma u_net_derivatives (model : list Dense) :
  (forall x t, derivable_pt_lim (fun z => u_net model z t) x (d_dx (u_net model) x t))
  /\ (forall x t, derivable_pt_lim (fun z => d_dx (u_net model) z t) x
                                   (d_dx (d_dx (u_net model)) x t))
  /\ (forall x t, derivable_pt_lim (fun z => u_net model x z) t (d_dt (u_net model) x t)).
Proof.
  split; [|split]; intros x t.
  - apply (td_derivative _ (u_net_td_position model t)).
  - apply (td_derivative _ (u_net_td_position model t)).
  - apply (td_derivative _ (u_net_td_time model x)).
Qed.

(** ** The gradient tape on a batch *)

Lemma rsum_app (xs ys : list R) : rsum (xs ++ ys) = rsum xs + rsum ys.
Proof.
  induction xs as [|x xs IH]; simpl; [|rewrite IH]; lra.
Qed.

Lemma split_at {A} (i : nat) (l : list A) (d : A) :
  (i < length l)%nat -> l = firstn i l ++ nth i l d :: skipn (S i) l.
Proof.
  revert i. induction l as [|a l IH]; intros [|i] Hi; simpl in *; try lia.
  - reflexivity.
  - f_equal. apply IH. lia.
Qed.

Lemma set_nth_length {A} (i : nat) (v : A) (l : list A) :
  (i < length l)%nat -> length (set_nth i v l) = length l.
Proof.
  intros Hi. unfold set_nth.
  rewrite length_app, firstn_length_le by lia. cbn [length]. rewrite length_skipn. lia.
Qed.

Lemma nth_column (i : nat) (xs : vector) :
  (i < length xs)%nat -> nth i (column xs) [] = [nth i xs 0].
Proof.
  intros Hi. unfold column.
  rewrite (nth_indep _ [] [0]) by (rewrite length_map; exact Hi).
  apply (map_nth (fun x => [x])).
Qed.

Lemma set_entry_column (i : nat) (z : R) (xs : vector) :
  (i < length xs)%nat -> set_entry i 0 z (column xs) = column (set_nth i z xs).
Proof.
  intros Hi. unfold set_entry. rewrite nth_column by exact Hi.
  unfold set_nth at 2. cbn [firstn skipn app].
  unfold set_nth, column.
  rewrite map_app, firstn_map. cbn [map]. rewrite skipn_map. reflexivity.
Qed.

Lemma reduce_sum_column (v : vector) : tf_reduce_sum (column v) = rsum v.
Proof. unfold tf_reduce_sum. rewrite concat_column. reflexivity. Qed.

Lemma column_map2_seq (F : R -> R -> R) (xs ts : vector) :
  length xs = length ts ->
  column (map2 F xs ts)
  = map (fun i => [F (nth i xs 0) (nth i ts 0)]) (seq 0 (length xs)).
Proof.
  revert ts. induction xs as [|x xs IH]; intros [|t ts] Hlen; try discriminate.
  - reflexivity.
  - rewrite map2_cons. simpl. f_equal.
    rewrite <- seq_shift, map_map. apply IH. simpl in Hlen. lia.
Qed.

Lemma map2_flip {A B C} (f : A -> B -> C) (xs : list A) (ys : list B) :
  map2 f xs ys = map2 (fun y x => f x y) ys xs.
Proof.
  revert ys. induction xs as [|x xs IH]; intros [|y ys]; try reflexivity.
  rewrite !map2_cons, IH. reflexivity.
Qed.

(** When row [i] of the target depends on entry [i] of the source only, the
    gradient of the sum of the target is the derivative row by row. *)
Lemma tape_gradient_rowwise (g g' : R -> R -> R) (target : matrix -> matrix)
    (xs ts : vector) :
  length xs = length ts ->
  (forall xs', length xs' = length xs -> target (column xs') = column (map2 g xs' ts)) ->
  (forall x t, derivable_pt_lim (fun z => g z t) x (g' x t)) ->
  tape_gradient target (column xs) = column (map2 g' xs ts).
Proof.
  intros Hlen Htarget Hg.
  rewrite column_map2_seq by exact Hlen.
  unfold tape_gradient, gradient_rank2.
  replace (length (column xs)) with (length xs) by (unfold column; now rewrite length_map).
  apply map_ext_in. intros i Hi. apply in_seq in Hi.
  assert (Hix : (i < length xs)%nat) by lia.
  assert (Hit : (i < length ts)%nat) by lia.
  rewrite nth_column by exact Hix. simpl. f_equal.
  apply derivative_unique.
  set (A := rsum (map2 g (firstn i xs) (firstn i ts))).
  set (B := rsum (map2 g (skipn (S i) xs) (skipn (S i) ts))).
  apply (derivable_pt_lim_ext (fun z => A + (g z (nth i ts 0) + B))).
  - intros z. rewrite set_entry_column by exact Hix.
    rewrite Htarget by (apply set_nth_length; exact Hix).
    rewrite reduce_sum_column. unfold set_nth.
    transitivity (rsum (map2 g (firstn i xs ++ z :: skipn (S i) xs)
                               (firstn i ts ++ nth i ts 0 :: skipn (S i) ts))).
    + rewrite map2_app by (rewrite !firstn_length_le; lia).
      rewrite rsum_app, map2_cons. reflexivity.
    + rewrite <- (split_at i ts 0 Hit). reflexivity.
  - replace (g' (nth i xs 0) (nth i ts 0)) with (0 + (g' (nth i xs 0) (nth i ts 0) + 0))
      by lra.
    apply (derivable_pt_lim_plus (fun _ => A) (fun z => g z (nth i ts 0) + B)).
    + apply (derivable_pt_lim_const A).
    + apply (derivable_pt_lim_plus (fun z => g z (nth i ts 0)) (fun _ => B)).
      * apply Hg.
      * apply (derivable_pt_lim_const B).
Qed.

(** ** The residual *)

Lemma sequential_row_single (model : list Dense) (h : vector) :
  last (map units model) 0%nat = 1%nat ->
  sequential_row model h = [nth 0 (sequential_row model h) 0].
Proof.
  intros Hlast.
  assert (Hlen : length (sequential_row model h) = 1%nat).
  { destruct (exists_last (l := model)) as [model' [l ->]].
    - intros ->. discriminate.
    - rewrite map_app in Hlast. cbn [map] in Hlast. rewrite last_last in Hlast.
      rewrite sequential_row_snoc, dense_call_length. exact Hlast. }
  destruct (sequential_row model h) as [|y [|? ?]]; try discriminate. reflexivity.
Qed.

(** The forward pass of [f_model] on stacked columns: one output per point. *)
Lemma forward_on_columns (model : list Dense) (xs ts : vector) :
  last (map units model) 0%nat = 1%nat ->
  sequential_call model (tf_stack_axis1 (column_0 (column xs)) (column_0 (column ts)))
  = column (map2 (u_net model) xs ts).
Proof.
  intros Hlast. rewrite !column_0_column.
  unfold sequential_call, tf_stack_axis1, column, map2. rewrite !map_map.
  apply map_ext. intros [x t]. simpl.
  apply (sequential_row_single model [x; t] Hlast).
Qed.

Lemma elementwise_column (f : R -> R -> R) (a b : vector) :
  map2 (map2 f) (column a) (column b) = column (map2 f a b).
Proof.
  revert b. induction a as [|x a IH]; intros [|y b]; try reflexivity.
  simpl. rewrite !map2_cons. simpl. f_equal. apply IH.
Qed.

Lemma broadcast_column (c : R) (a : vector) :
  tf_mul_broadcast [c] (column a) = column (map (Rmult c) a).
Proof.
  unfold tf_mul_broadcast, column. rewrite !map_map. reflexivity.
Qed.

Lemma map2_map2 {A B} (f : R -> R -> R) (g h : A -> B -> R) (xs : list A) (ys : list B) :
  map2 f (map2 g xs ys) (map2 h xs ys) = map2 (fun x y => f (g x y) (h x y)) xs ys.
Proof.
  revert ys. induction xs as [|x xs IH]; intros [|y ys]; try reflexivity.
  rewrite !map2_cons, IH. reflexivity.
Qed.

(** ** Outputs of the network on a batch *)

Lemma euclidean_norm_column (v : vector) :
  euclidean_norm (column v) = sqrt (rsum (map Rsqr v)).
Proof. unfold euclidean_norm, squares. rewrite concat_column. reflexivity. Qed.

(** The relative error of two columns, entry by entry. *)
Lemma error_u_columns (us ps : vector) :
  error_u (column us) (column ps)
  = sqrt (rsum (map2 (fun u_i p_i => Rsqr (u_i - p_i)) us ps)) / sqrt (rsum (map Rsqr us)).
Proof.
  unfold error_u. rewrite tf_sub_column, !np_linalg_norm_2_column.
  rewrite !euclidean_norm_column, map2_map. reflexivity.
Qed.

Lemma units_of_architecture (model : list Dense) :
  map units model = map fst (architecture model).
Proof. unfold architecture. rewrite map_map. reflexivity. Qed.

(** The forward pass on a batch of (position, time) rows, for a network of
    one output: one value per row, the network at the point of the row. *)
Lemma forward_on_batch (model : list Dense) (X : matrix) :
  last (map units model) 0%nat = 1%nat ->
  batch X ->
  sequential_call model X
  = column (map (fun row => u_net model (nth 0 row 0) (nth 1 row 0)) X).
Proof.
  intros Hlast HX. unfold sequential_call, column. rewrite map_map.
  apply map_ext_in. intros row Hrow. unfold batch in HX. rewrite Forall_forall in HX.
  specialize (HX row Hrow). destruct row as [|x [|t [|? ?]]]; try discriminate.
  apply (sequential_row_single model [x; t] Hlast).
Qed.

(** ** The float32 exponential *)

Lemma exp_INR (n : nat) : exp (INR n) = exp 1 ^ n.
Proof.
  induction n as [|n IH].
  - simpl. apply exp_0.
  - rewrite S_INR, exp_plus, IH. simpl. ring.
Qed.

Lemma exp_1_bounds : 2 <= exp 1 <= 3.
Proof. pose proof (exp_ineq1_le 1). pose proof exp_le_3. lra. Qed.

Lemma exp_le (x y : R) : x <= y -> exp x <= exp y.
Proof.
  intros [Hlt | ->]; [left; apply exp_increasing, Hlt | right; reflexivity].
Qed.

Lemma exp_opp_nat (n : nat) : exp (- INR n) = / exp 1 ^ n.
Proof. rewrite exp_Ropp, exp_INR. reflexivity. Qed.

(** From -87 up the exponential is a normal float32 number: [tf.exp] does not
    underflow, and its value is positive. *)
Lemma float32_exp_normal (x : R) :
  -87 <= x -> float32_exp x = exp x /\ 0 < float32_exp x.
Proof.
  intros Hx.
  assert (H87 : exp (-87) = / exp 1 ^ 87).
  { rewrite <- exp_opp_nat. f_equal. rewrite INR_IZR_INZ. reflexivity. }
  assert (Hpow : exp 1 ^ 87 < 2 ^ 150).
  { apply Rle_lt_trans with (3 ^ 87).
    - apply pow_incr. pose proof exp_1_bounds. lra.
    - rewrite !pow_IZR. apply IZR_lt. reflexivity. }
  assert (Hpos : 0 < exp 1 ^ 87) by (apply pow_lt, exp_pos).
  assert (Hlow : float32_underflow < exp x).
  { apply Rlt_le_trans with (exp (-87)); [|apply exp_le, Hx].
    rewrite H87. unfold float32_underflow.
    apply Rinv_lt_contravar; [|exact Hpow].
    apply Rmult_lt_0_compat; [exact Hpos | lra]. }
  unfold float32_exp. destruct (Rle_dec (exp x) float32_underflow) as [Hle|_]; [lra|].
  split; [reflexivity | apply exp_pos].
Qed.

(** From -150 down the exponential is less than half of the smallest positive
    float32 number: [tf.exp] returns zero. *)
Lemma float32_exp_underflows (x : R) : x <= -150 -> float32_exp x = 0.
Proof.
  intros Hx.
  assert (H150 : exp (-150) = / exp 1 ^ 150).
  { rewrite <- exp_opp_nat. f_equal. rewrite INR_IZR_INZ. reflexivity. }
  assert (Hpow : 2 ^ 150 <= exp 1 ^ 150).
  { apply pow_incr. pose proof exp_1_bounds. lra. }
  assert (Hpos : 0 < 2 ^ 150) by (apply pow_lt; lra).
  assert (Hup : exp x <= float32_underflow).
  { apply Rle_trans with (exp (-150)); [apply exp_le, Hx|].
    rewrite H150. unfold float32_underflow.
    apply Rinv_le_contravar; assumption. }
  unfold float32_exp. destruct (Rle_dec (exp x) float32_underflow); [reflexivity | contradiction].
Qed.

(** ** The residual that [f_model] returns *)

Lemma stacked_rows (xs ts : vector) : rows_of_width 2 (tf_stack_axis1 xs ts).
Proof.
  unfold rows_of_width, tf_stack_axis1, map2. apply Forall_forall. intros row Hrow.
  apply in_map_iff in Hrow. destruct Hrow as [p [<- _]]. reflexivity.
Qed.

(** The value of [f_model] on columns of collocation points, with the
    viscosity that [tf.exp] returns. *)
Lemma f_model_on_columns {Opt : Type} (s : @PhysicsInformedNN Opt) (xs ts : vector)
    (l1 l2 : R) :
  x_f s = Some (column xs) ->
  t_f s = Some (column ts) ->
  length xs = length ts ->
  lambda_1 s = [l1] ->
  lambda_2 s = [l2] ->
  last (map units (u_model s)) 0%nat = 1%nat ->
  f_model s
  = (Some (column (map2 (pde_residual l1 (float32_exp l2) (u_net (u_model s))) xs ts)), s).
Proof.
  intros Hx Ht Hlen H1 H2 Hlast.
  destruct (u_net_derivatives (u_model s)) as (Dx & Dxx & Dt).
  set (g := u_net (u_model s)) in *.
  assert (Hu : forall xs' ts',
             sequential_call (u_model s)
               (tf_stack_axis1 (column_0 (column xs')) (column_0 (column ts')))
             = column (map2 g xs' ts'))
    by (intros xs' ts'; apply forward_on_columns, Hlast).
  assert (Hux : forall xs', length xs' = length xs ->
             tape_gradient
               (fun x' => sequential_call (u_model s)
                            (tf_stack_axis1 (column_0 x') (column_0 (column ts))))
               (column xs')
             = column (map2 (d_dx g) xs' ts)).
  { intros xs' Hxs'. apply (tape_gradient_rowwise g).
    - lia.
    - intros xs'' _. apply Hu.
    - exact Dx. }
  assert (Huxx : tape_gradient
                   (fun x => tape_gradient
                               (fun x' => sequential_call (u_model s)
                                            (tf_stack_axis1 (column_0 x')
                                                            (column_0 (column ts))))
                               x)
                   (column xs)
                 = column (map2 (d_dx (d_dx g)) xs ts)).
  { apply (tape_gradient_rowwise (d_dx g)).
    - exact Hlen.
    - exact Hux.
    - exact Dxx. }
  assert (Hut : tape_gradient
                  (fun t' => sequential_call (u_model s)
                               (tf_stack_axis1 (column_0 (column xs)) (column_0 t')))
                  (column ts)
                = column (map2 (d_dt g) xs ts)).
  { rewrite (map2_flip (d_dt g)).
    apply (tape_gradient_rowwise (fun t x => g x t)).
    - lia.
    - intros ts' _. rewrite Hu. rewrite (map2_flip g). reflexivity.
    - intros t x. apply Dt. }
  unfold f_model, bind, gets, attr, ret. rewrite Hx, Ht, H1, H2.
  cbn [fst snd tf_exp map].
  rewrite Huxx, Hut, (Hux xs eq_refl), Hu.
  unfold tf_sub, tf_add, tf_mul. rewrite !broadcast_column, !map2_map.
  rewrite !elementwise_column.
  rewrite (map2_map2 Rmult), (map2_map2 Rplus), (map2_map2 Rminus).
  reflexivity.
Qed.


Lemma small_pinn_well_shaped : well_shaped 2 (u_model small_pinn).
Proof. simpl. repeat split; try reflexivity; try lia. repeat constructor. Qed.

Lemma small_pinn_burgers : burgers_network small_pinn.
Proof. split; [exact small_pinn_well_shaped | repeat split]. Qed.


(** ** The viscosity *)

(** C5, as the specification states it, fails: the coefficient is the float32
    value of [exp(lambda_2)], which is zero once the exponential underflows.
    With [lambda_2] at -150.0, [tf.exp] returns 0.0 and [f_model] computes the
    residual with a viscosity of zero. *)
Lemma C5_underflow_counterexample :
  exists s : @PhysicsInformedNN Adam,
    burgers_network s
    /\ lambda_2 s = [-150]
    /\ tf_exp (lambda_2 s) = [0]
    /\ ~ Forall (fun nu => 0 < nu) (tf_exp (lambda_2 s))
    /\ f_model s
       = (Some (column (map2 (pde_residual 0 0 (u_net (u_model s))) [0; 1; 1] [0; 0; 2])), s).
Proof.
  exists (set_lambda_2 [-150] small_pinn).
  assert (Hexp : float32_exp (-150) = 0) by (apply float32_exp_underflows; lra).
  split; [split; [exact small_pinn_well_shaped | repeat split]|].
  split; [reflexivity|].
  assert (Htf : tf_exp (lambda_2 (set_lambda_2 [-150] small_pinn)) = [0])
    by (cbn [lambda_2 set_lambda_2 tf_exp map]; rewrite Hexp; reflexivity).
  split; [exact Htf|]. split.
  - rewrite Htf. intros Hall. inversion Hall as [|? ? Hpos _]. lra.
  - rewrite (f_model_on_columns _ [0; 1; 1] [0; 0; 2] 0 (-150)) by reflexivity.
    rewrite Hexp. reflexivity.
Qed.

(** C5, amended: for every value of the raw scalar [lambda_2] that is at least
    -87, the coefficient that [f_model] uses is [exp(lambda_2)] and is
    strictly positive.  This is so at the initial value -6.0 that the
    constructor gives, and after any call of [fit], which leaves [lambda_2]
    as it was. *)
Theorem C5_viscosity_positive {Opt : Type} `{OptimizerV2 Opt} (s : @PhysicsInformedNN Opt)
    (xs ts : vector) (l1 l2 : R) :
  well_shaped 2 (u_model s) ->
  last (map units (u_model s)) 0%nat = 1%nat ->
  x_f s = Some (column xs) ->
  t_f s = Some (column ts) ->
  length xs = length ts ->
  lambda_1 s = [l1] ->
  lambda_2 s = [l2] ->
  -87 <= l2 ->
  exists nu,
    tf_exp (lambda_2 s) = [nu]
    /\ nu = exp l2
    /\ 0 < nu
    /\ f_model s
       = (Some (column (map2 (pde_residual l1 nu (u_net (u_model s))) xs ts)), s)
    /\ checked_sequential_call (u_model s) (tf_stack_axis1 xs ts)
       = Some (column (map2 (u_net (u_model s)) xs ts))
    /\ (forall (X u0 : matrix) (epochs : nat),
          tf_exp (lambda_2 (snd (fit X u0 epochs s))) = [nu])
    /\ (forall kernel_initializer widths (opt : Opt) (s0 : @PhysicsInformedNN Opt),
          __init__ kernel_initializer widths opt = Some s0 ->
          lambda_2 s0 = [-6] /\ tf_exp (lambda_2 s0) = [exp (-6)] /\ 0 < exp (-6)).
Proof.
  intros Hw Hlast Hx Ht Hlen H1 H2 Hl2.
  destruct (float32_exp_normal l2 Hl2) as [Heq Hpos].
  exists (float32_exp l2).
  assert (Htf : tf_exp (lambda_2 s) = [float32_exp l2]) by (rewrite H2; reflexivity).
  split; [exact Htf|]. split; [exact Heq|]. split; [exact Hpos|].
  split; [apply f_model_on_columns; assumption|]. split.
  { rewrite (checked_call_well_shaped _ 2 _ Hw (stacked_rows xs ts)).
    rewrite <- (forward_on_columns _ _ _ Hlast), !column_0_column. reflexivity. }
  split.
  - intros X u0 epochs.
    destruct (fit_frame X u0 epochs s) as (s' & Hrun & _ & Hl & _).
    rewrite Hrun. cbn [snd]. rewrite Hl. exact Htf.
  - intros kernel_initializer widths opt s0 Hinit.
    assert (Hs0 : lambda_2 s0 = [-6]).
    { destruct widths as [|d [|w ws]]; try discriminate.
      injection Hinit as <-. reflexivity. }
    split; [exact Hs0|]. rewrite Hs0. cbn [tf_exp map].
    destruct (float32_exp_normal (-6)) as [-> _]; [lra|].
    split; [reflexivity | apply exp_pos].
Qed.

Lemma C5_viscosity_positive_witness :
  exists nu,
    tf_exp (lambda_2 small_pinn) = [nu]
    /\ nu = exp (-6)
    /\ 0 < nu
    /\ f_model small_pinn
       = (Some (column (map2 (pde_residual 0 nu (u_net (u_model small_pinn)))
                             [0; 1; 1] [0; 0; 2])), small_pinn)
    /\ checked_sequential_call (u_model small_pinn) (tf_stack_axis1 [0; 1; 1] [0; 0; 2])
       = Some (column (map2 (u_net (u_model small_pinn)) [0; 1; 1] [0; 0; 2]))
    /\ (forall (X u0 : matrix) (epochs : nat),
          tf_exp (lambda_2 (snd (fit X u0 epochs small_pinn))) = [nu])
    /\ (forall kernel_initializer widths (opt : Adam) (s0 : @PhysicsInformedNN Adam),
          __init__ kernel_initializer widths opt = Some s0 ->
          lambda_2 s0 = [-6] /\ tf_exp (lambda_2 s0) = [exp (-6)] /\ 0 < exp (-6)).
Proof.
  apply (C5_viscosity_positive small_pinn [0; 1; 1] [0; 0; 2] 0 (-6)); try reflexivity.
  - exact small_pinn_well_shaped.
  - lra.
Defined.

(** * Shapes and training *)

(** ** The shapes of the variables *)

Lemma same_shape_length (a b : matrix) : same_shape a b -> length a = length b.
Proof.
  unfold same_shape. intros Hs. rewrite <- (length_map (@length R) a), Hs.
  apply length_map.
Qed.

Lemma rows_of_width_lengths (w : nat) (a : matrix) :
  rows_of_width w a <-> Forall (fun n => n = w) (map (@length R) a).
Proof. unfold rows_of_width. rewrite Forall_map. reflexivity. Qed.

Lemma same_shape_rows (w : nat) (a b : matrix) :
  same_shape a b -> rows_of_width w b -> rows_of_width w a.
Proof.
  unfold same_shape. intros Hs Hb. apply rows_of_width_lengths.
  rewrite Hs. apply rows_of_width_lengths, Hb.
Qed.

Lemma same_tensor_shape_refl (a : tensor) : same_tensor_shape a a.
Proof. destruct a; reflexivity. Qed.

Lemma same_tensor_shape_sym (a b : tensor) :
  same_tensor_shape a b -> same_tensor_shape b a.
Proof. destruct a, b; simpl; unfold same_shape; auto. Qed.

Lemma same_tensor_shape_trans (a b c : tensor) :
  same_tensor_shape a b -> same_tensor_shape b c -> same_tensor_shape a c.
Proof.
  destruct a, b, c; simpl; unfold same_shape; try contradiction; intros; congruence.
Qed.

Lemma same_tensor_shape_rank (a b : tensor) : same_tensor_shape a b -> same_rank a b.
Proof. destruct a, b; simpl; auto. Qed.

Lemma map_nth_seq {A B} (f : A -> B) (l : list A) (d : A) :
  map (fun i => f (nth i l d)) (seq 0 (length l)) = map f l.
Proof.
  induction l as [|a l IH]; [reflexivity|].
  cbn [length seq map nth]. f_equal. rewrite <- seq_shift, map_map. exact IH.
Qed.

(** A gradient has the shape of the tensor it is taken in. *)
Lemma gradient_rank1_length (f : vector -> R) (xs : vector) :
  length (gradient_rank1 f xs) = length xs.
Proof. unfold gradient_rank1. rewrite length_map. apply length_seq. Qed.

Lemma gradient_rank2_shape (f : matrix -> R) (m : matrix) :
  same_shape (gradient_rank2 f m) m.
Proof.
  unfold same_shape, gradient_rank2. rewrite map_map.
  rewrite <- (map_nth_seq (@length R) m []).
  apply map_ext. intros i. rewrite length_map. apply length_seq.
Qed.

Lemma variable_gradient_shape {Opt : Type} `{OptimizerV2 Opt}
    (L : @PhysicsInformedNN Opt -> R) (s : @PhysicsInformedNN Opt) (v : var_ref) :
  same_tensor_shape (variable_gradient L s v) (read_var s v).
Proof.
  unfold variable_gradient. destruct (read_var s v) as [xs|w]; simpl.
  - apply gradient_rank1_length.
  - apply gradient_rank2_shape.
Qed.

(** A network with the widths, the activations and the shapes of the kernels
    and biases of a well shaped one is well shaped. *)
Lemma well_shaped_same_shapes (m m' : list Dense) (d : nat) :
  architecture m' = architecture m ->
  (forall i, (i < length m)%nat ->
     same_shape (kernel (nth i m' empty_dense)) (kernel (nth i m empty_dense))
     /\ length (bias (nth i m' empty_dense)) = length (bias (nth i m empty_dense))) ->
  well_shaped d m -> well_shaped d m'.
Proof.
  revert m' d. induction m as [|l m IH]; intros [|l' m'] d Ha Hs Hw;
    try discriminate; [exact I|].
  simpl in Ha. injection Ha as Hu Hact Ha.
  destruct Hw as (Hpos & Htanh & Hk & Hrows & Hb & Hrest).
  destruct (Hs 0%nat) as [Hk0 Hb0]; [simpl; lia|]. cbn [nth] in Hk0, Hb0.
  cbn [well_shaped]. rewrite Hu, Hact.
  split; [exact Hpos|]. split; [exact Htanh|].
  split; [rewrite (same_shape_length _ _ Hk0); exact Hk|].
  split; [apply (same_shape_rows _ _ _ Hk0), Hrows|].
  split; [congruence|].
  apply IH; [exact Ha | | exact Hrest].
  intros i Hi. apply (Hs (S i)). simpl. lia.
Qed.

Lemma well_shaped_reads {Opt : Type} (s s' : @PhysicsInformedNN Opt) (d : nat) :
  architecture (u_model s') = architecture (u_model s) ->
  (forall v, in_model s v -> same_tensor_shape (read_var s' v) (read_var s v)) ->
  well_shaped d (u_model s) -> well_shaped d (u_model s').
Proof.
  intros Ha Hs. apply well_shaped_same_shapes; [exact Ha|].
  intros i Hi. split.
  - apply (Hs (Kernel i)). exact Hi.
  - apply (Hs (Bias i)). exact Hi.
Qed.

Lemma architecture_length (m m' : list Dense) :
  architecture m' = architecture m -> length m' = length m.
Proof.
  intros Ha. rewrite <- (length_map layer_spec m'), <- (length_map layer_spec m).
  change (map layer_spec ?x) with (architecture x). rewrite Ha. reflexivity.
Qed.

Lemma architecture_in_model {Opt : Type} (s s' : @PhysicsInformedNN Opt) (v : var_ref) :
  architecture (u_model s') = architecture (u_model s) ->
  in_model s' v <-> in_model s v.
Proof.
  intros Ha. unfold in_model. rewrite (architecture_length _ _ Ha). reflexivity.
Qed.

(** ** Sums and means of squares *)







(** ** The residual and the loss on a stored training set *)

Lemma map2_columns (F : R -> R -> R) (X : matrix) :
  map2 F (column_of 0 X) (column_of 1 X)
  = map (fun row => F (nth 0 row 0) (nth 1 row 0)) X.
Proof.
  induction X as [|row X IH]; [reflexivity|].
  unfold column_of in *. cbn [map]. rewrite map2_cons, IH. reflexivity.
Qed.

Lemma same_shape_column (a : matrix) (v : vector) :
  rows_of_width 1 a -> length a = length v -> same_shape a (column v).
Proof.
  unfold same_shape. intros Ha. revert v.
  induction Ha as [|row a Hrow _ IH]; intros [|y v] Hlen; try discriminate.
  - reflexivity.
  - simpl. rewrite Hrow. f_equal. apply IH. simpl in Hlen. lia.
Qed.

Lemma burgers_scalars {Opt : Type} (s : @PhysicsInformedNN Opt) :
  burgers_network s ->
  lambda_1 s = [hd 0 (lambda_1 s)] /\ lambda_2 s = [hd 0 (lambda_2 s)].
Proof.
  intros (_ & _ & H1 & H2).
  destruct (lambda_1 s) as [|a [|? ?]]; try discriminate.
  destruct (lambda_2 s) as [|b [|? ?]]; try discriminate.
  split; reflexivity.
Qed.

(** What an instance that holds a training set has stored. *)
Lemma holds_training_set_stored {Opt : Type} (s : @PhysicsInformedNN Opt) (X u0 : matrix) :
  holds_training_set s X u0 ->
  fitted s
  /\ X_u s = Some X /\ u s = Some u0
  /\ x_f s = Some (column (column_of 0 X))
  /\ t_f s = Some (column (column_of 1 X)).
Proof.
  intros ((HX & _ & _) & Hd & Hr). unfold stored_data in Hd.
  injection Hd as EX Eu Ex Et.
  rewrite slice_columns_0_1 in Ex by exact HX.
  rewrite slice_columns_1_2 in Et by exact HX.
  unfold fitted. rewrite EX, Eu, Ex, Et.
  repeat split; try discriminate. exact Hr.
Qed.

(** On a stored training set, [f_model] returns the residual at every
    training point, in order. *)
Lemma f_model_on_training_set {Opt : Type} (s : @PhysicsInformedNN Opt) (X u0 : matrix) :
  burgers_network s ->
  holds_training_set s X u0 ->
  f_model s = (Some (column (map (residual_at s) X)), s).
Proof.
  intros Hb Hs.
  destruct (holds_training_set_stored s X u0 Hs) as (_ & _ & _ & Ex & Et).
  destruct (burgers_scalars s Hb) as [H1 H2].
  destruct Hb as (_ & Hlast & _).
  assert (Hlen : length (column_of 0 X) = length (column_of 1 X))
    by (unfold column_of; rewrite !length_map; reflexivity).
  rewrite (f_model_on_columns s (column_of 0 X) (column_of 1 X) _ _ Ex Et Hlen H1 H2 Hlast).
  rewrite map2_columns. reflexivity.
Qed.

(** The loss of a training step: the mean of the squared differences between
    the data and the outputs of the network at the training points, plus the
    mean of the squared residuals at these points. *)
Lemma loss_on_training_set {Opt : Type} (s : @PhysicsInformedNN Opt) (X u0 : matrix) :
  burgers_network s ->
  holds_training_set s X u0 ->
  sequential_call (u_model s) X = column (map (prediction_at s) X)
  /\ loss u0 (sequential_call (u_model s) X) s
     = (Some (mean (squared_differences u0 (column (map (prediction_at s) X)))
              + mean (squares (column (map (residual_at s) X)))), s).
Proof.
  intros Hb Hs.
  assert (Hpred : sequential_call (u_model s) X = column (map (prediction_at s) X)).
  { destruct Hb as (_ & Hlast & _). destruct Hs as ((HX & _) & _).
    apply forward_on_batch; assumption. }
  split; [exact Hpred|].
  rewrite loss_run, (f_model_on_training_set s X u0 Hb Hs). cbn [fst option_map].
  rewrite Hpred, reduce_mean_square_sub, reduce_mean_square; [reflexivity|].
  destruct Hs as ((_ & Hu & Hlen) & _).
  apply same_shape_column; [exact Hu | rewrite length_map; exact Hlen].
Qed.

(** ** What a turn of the loop assigns *)

Section Updates.

Context {Opt : Type} `{OptimizerV2 Opt}.
Implicit Types s : @PhysicsInformedNN Opt.

Lemma update_layer_length (i : nat) (f : Dense -> Dense) (model : list Dense) :
  length (update_layer i f model) = length model.
Proof.
  revert i. induction model as [|l rest IH]; intros [|i]; simpl; try reflexivity.
  rewrite IH. reflexivity.
Qed.

Lemma update_layer_nth_same (i : nat) (f : Dense -> Dense) (model : list Dense) d :
  (i < length model)%nat -> nth i (update_layer i f model) d = f (nth i model d).
Proof.
  revert i. induction model as [|l rest IH]; intros [|i] Hi; simpl in *; try lia.
  - reflexivity.
  - apply IH. lia.
Qed.

(** Updating layer [i] with a function that keeps the field [proj] keeps the
    field of every layer. *)
Lemma update_layer_field {A} (proj : Dense -> A) (i j : nat) (f : Dense -> Dense)
    (model : list Dense) d :
  (forall l, proj (f l) = proj l) ->
  proj (nth j (update_layer i f model) d) = proj (nth j model d).
Proof.
  intros Hf. revert i j. induction model as [|l rest IH]; intros [|i] [|j]; simpl;
    try reflexivity.
  - apply Hf.
  - apply IH.
Qed.

Lemma update_layer_nth_other (i j : nat) (f : Dense -> Dense) (model : list Dense) d :
  i <> j -> nth j (update_layer i f model) d = nth j model d.
Proof.
  revert i j. induction model as [|l rest IH]; intros [|i] [|j] Hij; simpl;
    try reflexivity; try congruence.
  apply IH. congruence.
Qed.

Lemma write_var_length s v x :
  length (u_model (write_var s v x)) = length (u_model s).
Proof.
  destruct v, x; simpl; try reflexivity; apply update_layer_length.
Qed.

Lemma write_var_in_model s v x v' : in_model s v' -> in_model (write_var s v x) v'.
Proof.
  unfold in_model. destruct v'; try rewrite write_var_length; auto.
Qed.

Lemma read_write_same s v x :
  in_model s v -> same_rank x (read_var s v) -> read_var (write_var s v x) v = x.
Proof.
  destruct v as [i|i| |]; simpl; try contradiction; intros Hi Hr;
    destruct x as [b|w]; simpl in Hr; try contradiction; simpl;
    rewrite update_layer_nth_same by exact Hi; reflexivity.
Qed.

Lemma read_write_other s v x v' :
  v <> v' -> read_var (write_var s v x) v' = read_var s v'.
Proof.
  intros Hv.
  destruct v as [i|i| |], x as [b|w]; try reflexivity;
    destruct v' as [j|j| |]; try reflexivity; try congruence; simpl; f_equal;
    try (apply (update_layer_field bias); reflexivity);
    try (apply (update_layer_field kernel); reflexivity);
    (destruct (Nat.eq_dec i j) as [->|Hij]; [congruence|]);
    rewrite update_layer_nth_other by exact Hij; reflexivity.
Qed.

Lemma assign_all_untouched (opt : Opt) (gv : list (tensor * var_ref)) s v :
  ~ In v (map snd gv) -> read_var (assign_all opt gv s) v = read_var s v.
Proof.
  revert s. induction gv as [|p gv IH]; intros s Hn; [reflexivity|].
  simpl in Hn. unfold assign_all in *. simpl.
  rewrite IH by tauto. apply read_write_other. tauto.
Qed.

(** Every variable of a pair ends with the update that the optimizer computes
    from the gradient of the pair and the value the variable had. *)
Lemma assign_all_reads (opt : Opt) (gv : list (tensor * var_ref)) s :
  keeps_rank Opt ->
  NoDup (map snd gv) ->
  (forall p, In p gv -> in_model s (snd p)) ->
  forall g v, In (g, v) gv ->
    read_var (assign_all opt gv s) v = resource_apply opt v g (read_var s v).
Proof.
  intros Hk. revert s. induction gv as [|p gv IH]; intros s Hnd Hin g v Hgv.
  - contradiction.
  - simpl in Hnd. apply NoDup_cons_iff in Hnd. destruct Hnd as [Hp Hnd].
    set (x0 := resource_apply opt (snd p) (fst p) (read_var s (snd p))).
    change (assign_all opt (p :: gv) s) with (assign_all opt gv (write_var s (snd p) x0)).
    destruct Hgv as [-> | Hgv].
    + cbn [fst snd] in *. rewrite assign_all_untouched by exact Hp.
      apply read_write_same.
      * apply (Hin (g, v)). left. reflexivity.
      * unfold x0. apply Hk.
    + assert (Hin' : forall q, In q gv -> in_model (write_var s (snd p) x0) (snd q))
        by (intros q Hq; apply write_var_in_model, Hin; right; exact Hq).
      rewrite (IH (write_var s (snd p) x0) Hnd Hin' g v Hgv).
      f_equal. apply read_write_other. intros Heq. apply Hp.
      rewrite Heq. apply (in_map snd _ _ Hgv).
Qed.

Lemma trainable_variables_in_model s v :
  In v (trainable_variables s) -> in_model s v.
Proof.
  unfold trainable_variables. intros Hv. apply in_flat_map in Hv.
  destruct Hv as [i [Hi Hv]]. apply in_seq in Hi.
  destruct Hv as [<- | [<- | []]]; simpl; lia.
Qed.

Lemma layer_variables_NoDup (start n : nat) :
  NoDup (flat_map layer_trainable_variables (seq start n)).
Proof.
  revert start. induction n as [|n IH]; intros start; simpl.
  - constructor.
  - assert (Hlow : forall v, In v (flat_map layer_trainable_variables (seq (S start) n)) ->
                             v <> Kernel start /\ v <> Bias start).
    { intros v Hv. apply in_flat_map in Hv. destruct Hv as [i [Hi Hv]].
      apply in_seq in Hi. destruct Hv as [<- | [<- | []]]; split; intros Heq;
        inversion Heq; lia. }
    constructor; [|constructor; [|apply IH]].
    + intros [Heq | Hin]; [discriminate|]. apply Hlow in Hin. tauto.
    + intros Hin. apply Hlow in Hin. tauto.
Qed.

Lemma trainable_variables_NoDup s : NoDup (trainable_variables s).
Proof. apply layer_variables_NoDup. Qed.

(** One turn of the loop, step by step. *)
Lemma train_step_run s (X u0 : matrix) :
  fitted s -> X_u s = Some X -> u s = Some u0 ->
  exists loss_value,
    train_step s
    = (Some tt,
       set_train_loss_results
         (option_map (fun r => r ++ [loss_value]) (train_loss_results s))
         (set_optimizer
            (finish_step (optimizer s)
               (map (fun v => (variable_gradient (loss_of_variables X u0) s v, v))
                    (trainable_variables s)))
            (assign_all (optimizer s)
               (map (fun v => (variable_gradient (loss_of_variables X u0) s v, v))
                    (trainable_variables s))
               s))).
Proof.
  intros (_ & _ & Hx & Ht & Hr) EX Eu.
  destruct (x_f s) as [xf|] eqn:Ex; [|contradiction].
  destruct (t_f s) as [tf|] eqn:Et; [|contradiction].
  destruct (train_loss_results s) as [r|] eqn:Er; [|contradiction].
  destruct (f_model_defined s xf tf Ex Et) as [f Hf].
  unfold train_step, bind, attr. rewrite EX, Eu, grad_run, loss_run, Hf.
  cbn [option_map fst snd gets].
  rewrite apply_gradients_run, zip_map_app.
  set (gv := map _ (trainable_variables s)).
  pose proof (assignments_frame (optimizer s) gv s) as Hframe.
  assert (Hw : Forall (fun p => is_weight (snd p)) gv).
  { unfold gv. apply Forall_forall. intros p Hp. apply in_map_iff in Hp.
    destruct Hp as [v [<- Hv]]. simpl.
    pose proof (trainable_variables_weights s) as Hall.
    rewrite Forall_forall in Hall. apply Hall, Hv. }
  destruct (Hframe Hw) as (_ & _ & _ & H4 & _).
  cbn [train_loss_results set_optimizer]. fold (assign_all (optimizer s) gv s) in *.
  rewrite H4, Er. eexists. reflexivity.
Qed.

Lemma in_model_trainable s v : in_model s v -> In v (trainable_variables s).
Proof.
  unfold trainable_variables.
  destruct v as [i|i| |]; simpl; try contradiction; intros Hi; apply in_flat_map;
    exists i; (split; [apply in_seq; lia | simpl; auto]).
Qed.

(** One turn of the loop on stored data: the loss that is recorded, the step
    of the optimizer, the value that every variable of the network is
    assigned, and what stays as it was. *)
Lemma train_step_state s (X u0 f : matrix) :
  keeps_rank Opt ->
  fitted s -> X_u s = Some X -> u s = Some u0 -> fst (f_model s) = Some f ->
  exists s',
    train_step s = (Some tt, s')
    /\ train_loss_results s'
       = option_map
           (fun r => r ++ [tf_reduce_mean (tf_square (tf_sub u0 (sequential_call (u_model s) X)))
                           + tf_reduce_mean (tf_square f)])
           (train_loss_results s)
    /\ optimizer s'
       = finish_step (optimizer s)
           (map (fun v => (variable_gradient (loss_of_variables X u0) s v, v))
                (trainable_variables s))
    /\ (forall v, in_model s v ->
          read_var s' v
          = resource_apply (optimizer s) v
              (variable_gradient (loss_of_variables X u0) s v) (read_var s v))
    /\ lambda_1 s' = lambda_1 s
    /\ lambda_2 s' = lambda_2 s
    /\ stored_data s' = stored_data s
    /\ architecture (u_model s') = architecture (u_model s).
Proof.
  intros Hk (_ & _ & Hx & Ht & Hr) EX Eu Hf.
  destruct (train_loss_results s) as [r|] eqn:Er; [|contradiction].
  set (gv := map (fun v => (variable_gradient (loss_of_variables X u0) s v, v))
                 (trainable_variables s)).
  assert (Hw : Forall (fun p => is_weight (snd p)) gv).
  { unfold gv. apply Forall_forall. intros p Hp. apply in_map_iff in Hp.
    destruct Hp as [v [<- Hv]]. simpl.
    pose proof (trainable_variables_weights s) as Hall.
    rewrite Forall_forall in Hall. apply Hall, Hv. }
  pose proof (assignments_frame (optimizer s) gv s Hw) as (F1 & F2 & F3 & F4 & F5 & F6).
  fold (assign_all (optimizer s) gv s) in F1, F2, F3, F4, F5, F6.
  exists (set_train_loss_results
            (Some (r ++ [tf_reduce_mean (tf_square (tf_sub u0 (sequential_call (u_model s) X)))
                         + tf_reduce_mean (tf_square f)]))
            (set_optimizer (finish_step (optimizer s) gv) (assign_all (optimizer s) gv s))).
  split.
  { unfold train_step, bind, attr. rewrite EX, Eu, grad_run, loss_run, Hf.
    cbn [option_map fst snd gets].
    rewrite apply_gradients_run, zip_map_app. fold gv.
    fold (assign_all (optimizer s) gv s).
    cbn [train_loss_results set_optimizer]. rewrite F4, Er. reflexivity. }
  split; [reflexivity|]. split; [reflexivity|].
  split.
  { intros v Hv.
    transitivity (read_var (assign_all (optimizer s) gv s) v); [destruct v; reflexivity|].
    assert (Hsnd : map snd gv = trainable_variables s).
    { unfold gv. rewrite map_map. simpl. apply map_id. }
    apply (assign_all_reads (optimizer s) gv s Hk).
    - rewrite Hsnd. apply trainable_variables_NoDup.
    - intros p Hp. apply trainable_variables_in_model. rewrite <- Hsnd.
      apply in_map, Hp.
    - unfold gv. apply in_map_iff. exists v.
      split; [reflexivity | apply in_model_trainable, Hv]. }
  cbn [lambda_1 lambda_2 u_model set_train_loss_results set_optimizer].
  repeat split; assumption.
Qed.

(** When the updates of the optimizer have the shapes of the variables, the
    network is as well shaped after the turn as before. *)
Lemma train_step_keeps_shape s s' (X u0 : matrix) (d : nat) :
  updates_keep_shape s ->
  (forall v, in_model s v ->
     read_var s' v
     = resource_apply (optimizer s) v
         (variable_gradient (loss_of_variables X u0) s v) (read_var s v)) ->
  architecture (u_model s') = architecture (u_model s) ->
  well_shaped d (u_model s) ->
  well_shaped d (u_model s')
  /\ forall v, in_model s v -> same_tensor_shape (read_var s' v) (read_var s v).
Proof.
  intros Hshape Hreads Ha Hw.
  assert (Hs : forall v, in_model s v -> same_tensor_shape (read_var s' v) (read_var s v)).
  { intros v Hv. rewrite (Hreads v Hv). apply Hshape; [exact Hv|].
    apply variable_gradient_shape. }
  split; [apply (well_shaped_reads s s' d Ha Hs Hw) | exact Hs].
Qed.

(** X5. One turn of the loop of [fit], on an instance for the Burgers
    equation that holds a training set, with an optimizer whose updates have
    the rank and the shape of the variables: the turn returns; every kernel
    and every bias of the network is assigned the update that the optimizer
    computes from its own gradient, taken at the weights before the turn, and
    from its value before the turn; the loss recorded is the mean squared
    error of the network on the training data plus the mean squared residual
    at the training points, both before the update; and the instance is again
    one for the Burgers equation that holds the training set. *)
Theorem train_step_updates_every_weight s (X u0 : matrix) :
  keeps_rank Opt ->
  burgers_network s ->
  holds_training_set s X u0 ->
  updates_keep_shape s ->
  exists s',
    train_step s = (Some tt, s')
    /\ (forall v, In v (trainable_variables s) ->
          read_var s' v
          = resource_apply (optimizer s) v
              (variable_gradient (loss_of_variables X u0) s v) (read_var s v))
    /\ train_loss_results s'
       = option_map
           (fun r => r ++ [mean (squared_differences u0 (column (map (prediction_at s) X)))
                           + mean (squares (column (map (residual_at s) X)))])
           (train_loss_results s)
    /\ burgers_network s'
    /\ holds_training_set s' X u0.
Proof.
  intros Hk Hb Hs Hshape.
  destruct (holds_training_set_stored s X u0 Hs) as (Hfit & EX & Eu & _ & _).
  pose proof (f_model_on_training_set s X u0 Hb Hs) as Hf.
  destruct (loss_on_training_set s X u0 Hb Hs) as [_ Hloss].
  rewrite loss_run, Hf in Hloss. cbn [fst option_map] in Hloss.
  injection Hloss as Hloss.
  destruct (train_step_state s X u0 _ Hk Hfit EX Eu (f_equal fst Hf))
    as (s' & Hrun & Hr & _ & Hreads & H1 & H2 & Hd & Ha).
  destruct Hb as (Hw & Hlast & Hn1 & Hn2).
  destruct (train_step_keeps_shape s s' X u0 2 Hshape Hreads Ha Hw) as [Hw' _].
  exists s'. split; [exact Hrun|].
  split; [intros v Hv; apply Hreads, trainable_variables_in_model, Hv|].
  split; [rewrite Hr, Hloss; reflexivity|].
  split.
  - split; [exact Hw'|]. rewrite units_of_architecture, Ha, <- units_of_architecture.
    rewrite H1, H2. repeat split; assumption.
  - destruct Hs as (Ht & Hst & Hne). split; [exact Ht|].
    split; [rewrite Hd; exact Hst|].
    rewrite Hr. destruct (train_loss_results s); [discriminate | contradiction].
Qed.

End Updates.

Lemma tensor_map2_rank (f : R -> R -> R) (a b : tensor) : same_rank (tensor_map2 f a b) a.
Proof. destruct a, b; exact I. Qed.

Lemma adam_keeps_rank : keeps_rank Adam.
Proof. intros o v g x. apply tensor_map2_rank. Qed.

Lemma small_pinn_fitted : fitted small_pinn.
Proof. unfold fitted, small_pinn. simpl. repeat split; discriminate. Qed.

Lemma small_pinn_holds_training_set :
  holds_training_set small_pinn [[0; 0]; [1; 0]; [1; 2]] [[0]; [1]; [0]].
Proof.
  split; [|split; [reflexivity | discriminate]].
  unfold training_set, batch. repeat constructor.
Qed.

(** ** The steps of Adam *)

Lemma gradient_for_absent (v : var_ref) (gv : list (tensor * var_ref)) :
  ~ In v (map snd gv) -> gradient_for v gv = None.
Proof.
  intros Hn. unfold gradient_for.
  destruct (find _ gv) as [p|] eqn:Hfind; [|reflexivity].
  apply find_some in Hfind. destruct Hfind as [Hin Heq].
  destruct (var_ref_eq_dec (snd p) v) as [<-|]; [|discriminate].
  exfalso. apply Hn. apply in_map, Hin.
Qed.

Lemma train_step_adam (s : @PhysicsInformedNN Adam) :
  fitted s ->
  exists s',
    train_step s = (Some tt, s')
    /\ fitted s'
    /\ iterations (optimizer s') = S (iterations (optimizer s))
    /\ adam_learning_rate (optimizer s') = adam_learning_rate (optimizer s)
    /\ slot_m (optimizer s') Lambda_1 = slot_m (optimizer s) Lambda_1
    /\ slot_m (optimizer s') Lambda_2 = slot_m (optimizer s) Lambda_2
    /\ slot_v (optimizer s') Lambda_1 = slot_v (optimizer s) Lambda_1
    /\ slot_v (optimizer s') Lambda_2 = slot_v (optimizer s) Lambda_2.
Proof.
  intros Hs.
  assert (Hs' := Hs). destruct Hs' as (HX & Hu & _).
  destruct (X_u s) as [X|] eqn:EX; [|contradiction].
  destruct (u s) as [u0|] eqn:Eu; [|contradiction].
  destruct (train_step_run s X u0 Hs EX Eu) as [l Hrun].
  destruct (train_step_frame s Hs) as (s1 & Hrun1 & _ & _ & Hd & _ & Hl).
  assert (Hs1 := Hrun1). rewrite Hrun in Hs1. injection Hs1 as Hs1.
  exists s1. split; [exact Hrun1|].
  assert (Hopt : optimizer s1
                 = adam_finish (optimizer s)
                     (map (fun v => (variable_gradient (loss_of_variables X u0) s v, v))
                          (trainable_variables s)))
    by (rewrite <- Hs1; reflexivity).
  assert (Habsent : forall v, ~ is_weight v ->
            gradient_for v (map (fun v0 => (variable_gradient (loss_of_variables X u0) s v0, v0))
                                (trainable_variables s)) = None).
  { intros v Hv. apply gradient_for_absent. rewrite map_map. simpl. rewrite map_id.
    intros Hin. apply Hv. pose proof (trainable_variables_weights s) as Hall.
    rewrite Forall_forall in Hall. apply Hall, Hin. }
  split.
  - destruct Hs as (_ & _ & Hx & Ht & Hr). unfold stored_data in Hd.
    injection Hd as E1 E2 E3 E4. unfold fitted. rewrite E1, E2, E3, E4, EX, Eu.
    repeat split; try assumption; try discriminate.
    destruct (train_loss_results s); [|contradiction].
    destruct (train_loss_results s1); discriminate.
  - rewrite Hopt. cbn [adam_finish iterations adam_learning_rate slot_m slot_v].
    rewrite !Habsent by (simpl; tauto). repeat split.
Qed.

Lemma training_loop_adam (n : nat) (s : @PhysicsInformedNN Adam) :
  fitted s ->
  exists s',
    training_loop n s = (Some tt, s')
    /\ iterations (optimizer s') = (iterations (optimizer s) + n)%nat
    /\ adam_learning_rate (optimizer s') = adam_learning_rate (optimizer s)
    /\ slot_m (optimizer s') Lambda_1 = slot_m (optimizer s) Lambda_1
    /\ slot_m (optimizer s') Lambda_2 = slot_m (optimizer s) Lambda_2
    /\ slot_v (optimizer s') Lambda_1 = slot_v (optimizer s) Lambda_1
    /\ slot_v (optimizer s') Lambda_2 = slot_v (optimizer s) Lambda_2.
Proof.
  revert s. induction n as [|n IH]; intros s0 Hs0.
  - exists s0. simpl. rewrite Nat.add_0_r. repeat split.
  - destruct (train_step_adam s0 Hs0)
      as (s1 & Hrun1 & Hs1 & A1 & A2 & A3 & A4 & A5 & A6).
    destruct (IH s1 Hs1) as (s2 & Hrun2 & B1 & B2 & B3 & B4 & B5 & B6).
    exists s2. simpl. unfold bind. rewrite Hrun1, Hrun2.
    rewrite B1, B2, B3, B4, B5, B6, A1, A2, A3, A4, A5, A6.
    repeat split. lia.
Qed.

(** ** Adam keeps the shapes of the variables *)

Lemma map2_rows_shape (f : R -> R -> R) (a b : matrix) :
  same_shape b a -> same_shape (map2 (map2 f) a b) a.
Proof.
  unfold same_shape. revert b. induction a as [|ra a IH]; intros [|rb b] Hs;
    try discriminate; [reflexivity|].
  simpl in Hs. injection Hs as Hr Hs. rewrite map2_cons. simpl. f_equal.
  - rewrite map2_length. lia.
  - apply IH, Hs.
Qed.

Lemma tensor_map2_shape (f : R -> R -> R) (a b : tensor) :
  same_tensor_shape b a -> same_tensor_shape (tensor_map2 f a b) a.
Proof.
  destruct a, b; simpl; try contradiction; intros Hs.
  - rewrite map2_length. lia.
  - apply map2_rows_shape, Hs.
Qed.

Lemma zeros_like_shape (a : tensor) : same_tensor_shape (zeros_like a) a.
Proof.
  destruct a; simpl.
  - apply length_map.
  - unfold same_shape. rewrite map_map. apply map_ext. intros row. apply length_map.
Qed.

Lemma slot_or_zeros_shape (slot : option tensor) (g x : tensor) :
  same_tensor_shape g x ->
  (forall t, slot = Some t -> same_tensor_shape t x) ->
  same_tensor_shape (slot_or_zeros slot g) x.
Proof.
  intros Hg Hslot. destruct slot as [t|]; simpl.
  - apply Hslot. reflexivity.
  - apply (same_tensor_shape_trans _ g); [apply zeros_like_shape | exact Hg].
Qed.

(** The new moments have the shape of the variable. *)
Lemma adam_m_shape (opt : Adam) (v : var_ref) (g x : tensor) :
  same_tensor_shape g x ->
  (forall t, slot_m opt v = Some t -> same_tensor_shape t x) ->
  same_tensor_shape (adam_m opt v g) x.
Proof.
  intros Hg Hslot. unfold adam_m.
  pose proof (slot_or_zeros_shape (slot_m opt v) g x Hg Hslot) as H0.
  apply (same_tensor_shape_trans _ (slot_or_zeros (slot_m opt v) g)); [|exact H0].
  apply tensor_map2_shape.
  apply (same_tensor_shape_trans _ x); [exact Hg | apply same_tensor_shape_sym, H0].
Qed.

Lemma adam_v_shape (opt : Adam) (v : var_ref) (g x : tensor) :
  same_tensor_shape g x ->
  (forall t, slot_v opt v = Some t -> same_tensor_shape t x) ->
  same_tensor_shape (adam_v opt v g) x.
Proof.
  intros Hg Hslot. unfold adam_v.
  pose proof (slot_or_zeros_shape (slot_v opt v) g x Hg Hslot) as H0.
  apply (same_tensor_shape_trans _ (slot_or_zeros (slot_v opt v) g)); [|exact H0].
  apply tensor_map2_shape.
  apply (same_tensor_shape_trans _ x); [exact Hg | apply same_tensor_shape_sym, H0].
Qed.

(** The update of Adam has the shape of the variable, when the gradient and
    the slots of the variable have it. *)
Lemma adam_apply_shape (opt : Adam) (v : var_ref) (g x : tensor) :
  same_tensor_shape g x ->
  (forall t, slot_m opt v = Some t -> same_tensor_shape t x) ->
  (forall t, slot_v opt v = Some t -> same_tensor_shape t x) ->
  same_tensor_shape (adam_apply opt v g x) x.
Proof.
  intros Hg Hm Hv. unfold adam_apply.
  pose proof (adam_m_shape opt v g x Hg Hm) as Sm.
  pose proof (adam_v_shape opt v g x Hg Hv) as Sv.
  apply tensor_map2_shape.
  apply (same_tensor_shape_trans _ (adam_m opt v g)); [|exact Sm].
  apply tensor_map2_shape.
  apply (same_tensor_shape_trans _ x); [exact Sv | apply same_tensor_shape_sym, Sm].
Qed.

Lemma adam_updates_keep_shape (s : @PhysicsInformedNN Adam) :
  adam_slots_match s -> updates_keep_shape s.
Proof.
  intros Hslots v g Hv Hg. cbn [resource_apply Adam_optimizer].
  apply adam_apply_shape; [exact Hg | |]; intros t Ht; apply (Hslots v t Hv); auto.
Qed.

Lemma new_Adam_slots_match (lr : R) (s : @PhysicsInformedNN Adam) :
  optimizer s = new_Adam lr -> adam_slots_match s.
Proof. intros Ho v t _. rewrite Ho. simpl. intros [Hm | Hv]; discriminate. Qed.

Lemma gradient_for_present (G : var_ref -> tensor) (vars : list var_ref) (v : var_ref) :
  In v vars -> gradient_for v (map (fun v0 => (G v0, v0)) vars) = Some (G v).
Proof.
  unfold gradient_for. induction vars as [|v0 vars IH]; intros Hin; [contradiction|].
  cbn [map find snd].
  destruct (var_ref_eq_dec v0 v) as [->|Hne]; [reflexivity|].
  apply IH. destruct Hin as [Heq | Hin]; [contradiction | exact Hin].
Qed.

(** One turn of the loop with Adam keeps the network well shaped and the
    slots of the shapes of the variables. *)
Lemma train_step_adam_shapes (s s' : @PhysicsInformedNN Adam) (d : nat) :
  fitted s -> well_shaped d (u_model s) -> adam_slots_match s ->
  train_step s = (Some tt, s') ->
  well_shaped d (u_model s') /\ adam_slots_match s'.
Proof.
  intros Hs Hw Hslots Hrun.
  assert (Hs' := Hs). destruct Hs' as (HX & Hu & Hx & Ht & _).
  destruct (X_u s) as [X|] eqn:EX; [|contradiction].
  destruct (u s) as [u0|] eqn:Eu; [|contradiction].
  destruct (x_f s) as [xf|] eqn:Ex; [|contradiction].
  destruct (t_f s) as [tf|] eqn:Et; [|contradiction].
  destruct (f_model_defined s xf tf Ex Et) as [f Hf].
  destruct (train_step_state s X u0 f adam_keeps_rank Hs EX Eu Hf)
    as (s1 & Hrun1 & _ & Hopt & Hreads & _ & _ & _ & Ha).
  rewrite Hrun in Hrun1. injection Hrun1 as <-.
  pose proof (adam_updates_keep_shape s Hslots) as Hshape.
  destruct (train_step_keeps_shape s s' X u0 d Hshape Hreads Ha Hw) as [Hw' Hsame].
  split; [exact Hw'|].
  intros v t Hv' Hslot.
  assert (Hv : in_model s v) by (apply (architecture_in_model s s' v Ha), Hv').
  apply (same_tensor_shape_trans _ (read_var s v));
    [|apply same_tensor_shape_sym, Hsame, Hv].
  rewrite Hopt in Hslot. cbn [finish_step Adam_optimizer adam_finish slot_m slot_v] in Hslot.
  rewrite (gradient_for_present
             (variable_gradient (loss_of_variables X u0) s) _ v
             (in_model_trainable s v Hv)) in Hslot.
  destruct Hslot as [Hm | Hm]; injection Hm as <-.
  - apply adam_m_shape; [apply variable_gradient_shape|].
    intros t Ht'. apply (Hslots v t Hv). left. exact Ht'.
  - apply adam_v_shape; [apply variable_gradient_shape|].
    intros t Ht'. apply (Hslots v t Hv). right. exact Ht'.
Qed.

Lemma training_loop_adam_shapes (n : nat) (s s' : @PhysicsInformedNN Adam) (d : nat) :
  fitted s -> well_shaped d (u_model s) -> adam_slots_match s ->
  training_loop n s = (Some tt, s') ->
  well_shaped d (u_model s') /\ adam_slots_match s'.
Proof.
  revert s. induction n as [|n IH]; intros s Hs Hw Hslots Hrun.
  - simpl in Hrun. injection Hrun as <-. split; assumption.
  - destruct (train_step_adam s Hs) as (s1 & Hrun1 & Hs1 & _).
    destruct (train_step_adam_shapes s s1 d Hs Hw Hslots Hrun1) as [Hw1 Hslots1].
    simpl in Hrun. unfold bind in Hrun. rewrite Hrun1 in Hrun.
    apply (IH s1 Hs1 Hw1 Hslots1 Hrun).
Qed.

(** [fit] with Adam, on a network well shaped for its input: it returns, the
    network is well shaped as before, and what it stores, keeps and counts. *)
Lemma fit_adam_run (X u0 : matrix) (epochs : nat) (s : @PhysicsInformedNN Adam) (d : nat) :
  well_shaped d (u_model s) ->
  adam_slots_match s ->
  exists s',
    fit X u0 epochs s = (Some tt, s')
    /\ well_shaped d (u_model s')
    /\ adam_slots_match s'
    /\ lambda_1 s' = lambda_1 s
    /\ lambda_2 s' = lambda_2 s
    /\ stored_data s'
       = (Some X, Some u0, Some (slice_columns 0 1 X), Some (slice_columns 1 2 X))
    /\ architecture (u_model s') = architecture (u_model s)
    /\ option_map (@length R) (train_loss_results s') = Some epochs
    /\ iterations (optimizer s') = (iterations (optimizer s) + epochs)%nat
    /\ adam_learning_rate (optimizer s') = adam_learning_rate (optimizer s)
    /\ slot_m (optimizer s') Lambda_1 = slot_m (optimizer s) Lambda_1
    /\ slot_m (optimizer s') Lambda_2 = slot_m (optimizer s) Lambda_2
    /\ slot_v (optimizer s') Lambda_1 = slot_v (optimizer s) Lambda_1
    /\ slot_v (optimizer s') Lambda_2 = slot_v (optimizer s) Lambda_2.
Proof.
  intros Hw Hslots.
  destruct (fit_frame X u0 epochs s) as (s' & Hrun & H1 & H2 & Hd & Ha & Hl).
  exists s'. split; [exact Hrun|].
  unfold fit, bind, modify in Hrun.
  set (s0 := set_train_loss_results _ _) in Hrun.
  assert (Hs0 : fitted s0) by (unfold fitted, s0; simpl; repeat split; discriminate).
  destruct (training_loop_adam_shapes epochs s0 s' d Hs0 Hw Hslots Hrun) as [Hw' Hslots'].
  destruct (training_loop_adam epochs s0 Hs0) as (s2 & Hrun2 & Hit).
  rewrite Hrun in Hrun2. injection Hrun2 as <-.
  repeat (split; [assumption|]). exact Hit.
Qed.

(** An instance for the Burgers equation stays one when its network stays
    well shaped and keeps its widths, and the two scalars keep their
    values. *)
Lemma burgers_network_kept {Opt : Type} (s s' : @PhysicsInformedNN Opt) :
  burgers_network s ->
  well_shaped 2 (u_model s') ->
  architecture (u_model s') = architecture (u_model s) ->
  lambda_1 s' = lambda_1 s -> lambda_2 s' = lambda_2 s ->
  burgers_network s'.
Proof.
  intros (_ & Hlast & Hn1 & Hn2) Hw Ha H1 H2.
  split; [exact Hw|]. rewrite units_of_architecture, Ha, <- units_of_architecture, H1, H2.
  repeat split; assumption.
Qed.

Lemma small_pinn_slots_match : adam_slots_match small_pinn.
Proof. apply (new_Adam_slots_match learning_rate). reflexivity. Qed.

Lemma train_step_updates_every_weight_witness :
  exists s',
    train_step small_pinn = (Some tt, s')
    /\ (forall v, In v (trainable_variables small_pinn) ->
          read_var s' v
          = resource_apply (optimizer small_pinn) v
              (variable_gradient
                 (loss_of_variables [[0; 0]; [1; 0]; [1; 2]] [[0]; [1]; [0]]) small_pinn v)
              (read_var small_pinn v))
    /\ train_loss_results s'
       = option_map
           (fun r => r ++ [mean (squared_differences [[0]; [1]; [0]]
                                   (column (map (prediction_at small_pinn)
                                                [[0; 0]; [1; 0]; [1; 2]])))
                           + mean (squares (column (map (residual_at small_pinn)
                                                        [[0; 0]; [1; 0]; [1; 2]])))])
           (train_loss_results small_pinn)
    /\ burgers_network s'
    /\ holds_training_set s' [[0; 0]; [1; 0]; [1; 2]] [[0]; [1]; [0]].
Proof.
  apply (train_step_updates_every_weight small_pinn
           [[0; 0]; [1; 0]; [1; 2]] [[0]; [1]; [0]]).
  - exact adam_keeps_rank.
  - exact small_pinn_burgers.
  - exact small_pinn_holds_training_set.
  - exact (adam_updates_keep_shape small_pinn small_pinn_slots_match).
Defined.

(** ** [fit] and [predict] on an instance for the Burgers equation *)

(** [fit] with Adam on an instance for the Burgers equation and a training
    set: it returns, and the instance it leaves is again one for the Burgers
    equation, holds the training set, and has slots of the shapes of the
    variables. *)
Lemma fit_burgers (X u0 : matrix) (epochs : nat) (s : @PhysicsInformedNN Adam) :
  burgers_network s ->
  adam_slots_match s ->
  training_set X u0 ->
  exists s',
    fit X u0 epochs s = (Some tt, s')
    /\ burgers_network s'
    /\ adam_slots_match s'
    /\ holds_training_set s' X u0
    /\ lambda_1 s' = lambda_1 s
    /\ lambda_2 s' = lambda_2 s
    /\ architecture (u_model s') = architecture (u_model s)
    /\ option_map (@length R) (train_loss_results s') = Some epochs.
Proof.
  intros Hb Hslots Ht.
  assert (Hw : well_shaped 2 (u_model s)) by (destruct Hb as [Hw _]; exact Hw).
  destruct (fit_adam_run X u0 epochs s 2 Hw Hslots)
    as (s' & Hrun & Hw' & Hslots' & H1 & H2 & Hd & Ha & Hl & _).
  exists s'. split; [exact Hrun|].
  split; [apply (burgers_network_kept s s'); assumption|].
  split; [exact Hslots'|].
  split.
  { split; [exact Ht|]. split; [exact Hd|].
    destruct (train_loss_results s'); [discriminate | discriminate]. }
  repeat (split; [assumption|]). exact Hl.
Qed.

(** On an instance for the Burgers equation that holds a training set,
    [predict] on a batch of (position, time) rows returns the outputs of the
    network at the rows of the batch, and the residuals at the training
    points. *)
Lemma predict_on_batch {Opt : Type} (s : @PhysicsInformedNN Opt) (X u0 X_star : matrix) :
  burgers_network s ->
  holds_training_set s X u0 ->
  batch X_star ->
  predict X_star s
  = (Some (column (map (prediction_at s) X_star), column (map (residual_at s) X)), s)
  /\ checked_sequential_call (u_model s) X_star
     = Some (column (map (prediction_at s) X_star)).
Proof.
  intros Hb Hs HX.
  assert (Hcall : sequential_call (u_model s) X_star
                  = column (map (prediction_at s) X_star)).
  { destruct Hb as (_ & Hlast & _). apply forward_on_batch; assumption. }
  split.
  - rewrite predict_run, (f_model_on_training_set s X u0 Hb Hs). cbn [fst option_map].
    rewrite Hcall. reflexivity.
  - destruct Hb as (Hw & _).
    rewrite (checked_call_well_shaped _ 2 _ Hw HX), Hcall. reflexivity.
Qed.

(** C6: for every training matrix [X_u] of (position, time) rows passed to
    [fit], with the observed values [u], the stored collocation points are
    the columns of [X_u]: [x_f] is column 0 and [t_f] is column 1, and the
    points that [f_model] stacks from them are the rows of [X_u].  The
    residual that [f_model] then returns has one entry per training row, the
    residual of the equation at the (position, time) pair of that row:
    nothing else is sampled. *)
Theorem C6_collocation_points (X u0 : matrix) (epochs : nat)
    (s : @PhysicsInformedNN Adam) :
  burgers_network s ->
  adam_slots_match s ->
  training_set X u0 ->
  exists s',
    fit X u0 epochs s = (Some tt, s')
    /\ x_f s' = Some (column (column_of 0 X))
    /\ t_f s' = Some (column (column_of 1 X))
    /\ tf_stack_axis1 (column_0 (column (column_of 0 X)))
                      (column_0 (column (column_of 1 X))) = X
    /\ f_model s' = (Some (column (map (residual_at s') X)), s')
    /\ burgers_network s'.
Proof.
  intros Hb Hslots Ht.
  destruct (fit_burgers X u0 epochs s Hb Hslots Ht)
    as (s' & Hrun & Hb' & _ & Hs' & _).
  destruct (holds_training_set_stored s' X u0 Hs') as (_ & _ & _ & Ex & Et).
  exists s'. split; [exact Hrun|]. split; [exact Ex|]. split; [exact Et|].
  split; [|split; [apply (f_model_on_training_set s' X u0 Hb' Hs') | exact Hb']].
  rewrite !column_0_column. apply stack_columns. destruct Ht as [HX _]. exact HX.
Qed.

Lemma C6_collocation_points_witness :
  exists s',
    fit [[0; 1]; [2; 3]] [[5]; [6]] 2 small_pinn = (Some tt, s')
    /\ x_f s' = Some (column (column_of 0 [[0; 1]; [2; 3]]))
    /\ t_f s' = Some (column (column_of 1 [[0; 1]; [2; 3]]))
    /\ tf_stack_axis1 (column_0 (column (column_of 0 [[0; 1]; [2; 3]])))
                      (column_0 (column (column_of 1 [[0; 1]; [2; 3]])))
       = [[0; 1]; [2; 3]]
    /\ f_model s' = (Some (column (map (residual_at s') [[0; 1]; [2; 3]])), s')
    /\ burgers_network s'.
Proof.
  apply (C6_collocation_points [[0; 1]; [2; 3]] [[5]; [6]] 2 small_pinn).
  - exact small_pinn_burgers.
  - exact small_pinn_slots_match.
  - unfold training_set, batch. repeat constructor.
Defined.

(** C10: the residual that [predict] returns does not depend on its argument.
    After a call of [fit] on a training set, two calls of [predict] on any
    two batches of (position, time) rows return the same [f_star]: the
    residuals at the training points stored by [fit], one per training row,
    whatever the batch; only the predicted values follow the batch. *)
Theorem C10_residual_independent_of_input (X_u u0 : matrix) (epochs : nat)
    (s : @PhysicsInformedNN Adam) (X1 X2 : matrix) :
  burgers_network s ->
  adam_slots_match s ->
  training_set X_u u0 ->
  batch X1 ->
  batch X2 ->
  exists s' f_star,
    fit X_u u0 epochs s = (Some tt, s')
    /\ predict X1 s' = (Some (column (map (prediction_at s') X1), f_star), s')
    /\ predict X2 s' = (Some (column (map (prediction_at s') X2), f_star), s')
    /\ f_model s' = (Some f_star, s')
    /\ f_star = column (map (residual_at s') X_u)
    /\ length f_star = length X_u.
Proof.
  intros Hb Hslots Ht HX1 HX2.
  destruct (fit_burgers X_u u0 epochs s Hb Hslots Ht)
    as (s' & Hrun & Hb' & _ & Hs' & _).
  exists s', (column (map (residual_at s') X_u)).
  split; [exact Hrun|].
  split; [apply (predict_on_batch s' X_u u0 X1 Hb' Hs' HX1)|].
  split; [apply (predict_on_batch s' X_u u0 X2 Hb' Hs' HX2)|].
  split; [apply (f_model_on_training_set s' X_u u0 Hb' Hs')|].
  split; [reflexivity|].
  unfold column. rewrite !length_map. reflexivity.
Qed.

Lemma C10_residual_independent_of_input_witness :
  exists s' f_star,
    fit [[0; 1]; [2; 3]] [[5]; [6]] 2 small_pinn = (Some tt, s')
    /\ predict [[0; 0]] s'
       = (Some (column (map (prediction_at s') [[0; 0]]), f_star), s')
    /\ predict [[1; 2]; [3; 4]; [5; 6]] s'
       = (Some (column (map (prediction_at s') [[1; 2]; [3; 4]; [5; 6]]), f_star), s')
    /\ f_model s' = (Some f_star, s')
    /\ f_star = column (map (residual_at s') [[0; 1]; [2; 3]])
    /\ length f_star = length [[0; 1]; [2; 3]]%R.
Proof.
  apply (C10_residual_independent_of_input [[0; 1]; [2; 3]] [[5]; [6]] 2 small_pinn
           [[0; 0]] [[1; 2]; [3; 4]; [5; 6]]).
  - exact small_pinn_burgers.
  - exact small_pinn_slots_match.
  - unfold training_set, batch. repeat constructor.
  - unfold batch. repeat constructor.
  - unfold batch. repeat constructor.
Defined.

(** ** The reported error *)

(** The instance that the script builds from [layers]. *)
Lemma init_layers_burgers (kernel_initializer : nat -> nat -> nat -> matrix)
    (s0 : @PhysicsInformedNN Adam) :
  shaped_initializer kernel_initializer ->
  __init__ kernel_initializer layers optimizer_of_script = Some s0 ->
  burgers_network s0 /\ adam_slots_match s0.
Proof.
  intros Hk Hinit.
  assert (Hs0 : s0 = mkPINN (add_dense_layers kernel_initializer 0 2 (tl layers))
                            [0] [-6] optimizer_of_script None None None None None)
    by (rewrite init_with_layers in Hinit; congruence).
  rewrite Hs0.
  split; [|apply (new_Adam_slots_match learning_rate); reflexivity].
  unfold burgers_network. cbn [u_model lambda_1 lambda_2].
  split; [|split; [|split; reflexivity]].
  - apply add_dense_layers_well_shaped; [exact Hk|].
    unfold layers. cbn [tl]. repeat constructor.
  - rewrite units_of_architecture, add_dense_layers_architecture. reflexivity.
Qed.

(** C8: the error that the script reports is the relative L2 error of the
    prediction over the whole grid.  The prediction holds, for every row
    (position, time) of [X_star], the output [p_i] of the trained network at
    that point, and the error is the square root of the sum of the
    [(u_i - p_i)^2] divided by the square root of the sum of the [u_i^2],
    where [u_i] is the entry of [u_star] at the row. *)
Theorem C8_relative_error (permutation : list nat)
    (kernel_initializer : nat -> nat -> nat -> matrix) (X_star : matrix) (us : vector) :
  shaped_initializer kernel_initializer ->
  Permutation permutation (seq 0 (length X_star)) ->
  (N_u <= length X_star)%nat ->
  batch X_star ->
  length us = length X_star ->
  exists run ps,
    main permutation kernel_initializer X_star (column us) = Some run
    /\ ps = map (prediction_at (pinn run)) X_star
    /\ u_pred run = column ps
    /\ checked_sequential_call (u_model (pinn run)) X_star = Some (u_pred run)
    /\ length ps = length us
    /\ reported_error_u run
       = sqrt (rsum (map2 (fun u_i p_i => Rsqr (u_i - p_i)) us ps))
         / sqrt (rsum (map Rsqr us)).
Proof.
  intros Hk Hp Hle HX Hlen.
  destruct (main_run permutation kernel_initializer X_star (column us) Hp Hle)
    as (ids & Xtr & utr & s0 & s' & f & _ & _ & _ & _ & _ & Hinit & Hfit & Ha & Hmain).
  { unfold column. rewrite length_map. exact Hlen. }
  destruct (init_layers_burgers kernel_initializer s0 Hk Hinit) as [Hb0 Hslots0].
  assert (Hw0 : well_shaped 2 (u_model s0)) by (destruct Hb0 as [Hw0 _]; exact Hw0).
  destruct (fit_adam_run Xtr utr epochs s0 2 Hw0 Hslots0) as (s1 & Hfit1 & Hw' & _).
  rewrite Hfit in Hfit1. injection Hfit1 as <-.
  assert (Hlast : last (map units (u_model s')) 0%nat = 1%nat)
    by (rewrite units_of_architecture, Ha; reflexivity).
  assert (Hcall : sequential_call (u_model s') X_star
                  = column (map (prediction_at s') X_star))
    by (apply forward_on_batch; assumption).
  eexists. eexists. split; [exact Hmain|]. cbn [u_pred pinn reported_error_u].
  split; [reflexivity|].
  split; [exact Hcall|].
  split; [apply (checked_call_well_shaped _ 2 _ Hw' HX)|].
  split; [rewrite length_map; symmetry; exact Hlen|].
  rewrite Hcall. apply error_u_columns.
Qed.

Lemma zeros_initializer_shaped : shaped_initializer zeros_initializer.
Proof.
  intros index input_width width. unfold zeros_initializer. split.
  - apply repeat_length.
  - apply Forall_forall. intros row Hrow. apply repeat_spec in Hrow. rewrite Hrow.
    apply repeat_length.
Qed.

Lemma C8_relative_error_witness :
  exists run ps,
    main (rev (seq 0 N_u)) zeros_initializer (repeat [0; 1] N_u) (column (repeat 1 N_u))
    = Some run
    /\ ps = map (prediction_at (pinn run)) (repeat [0; 1] N_u)
    /\ u_pred run = column ps
    /\ checked_sequential_call (u_model (pinn run)) (repeat [0; 1] N_u) = Some (u_pred run)
    /\ length ps = length (repeat 1 N_u)
    /\ reported_error_u run
       = sqrt (rsum (map2 (fun u_i p_i => Rsqr (u_i - p_i)) (repeat 1 N_u) ps))
         / sqrt (rsum (map Rsqr (repeat 1 N_u))).
Proof.
  apply (C8_relative_error (rev (seq 0 N_u)) zeros_initializer (repeat [0; 1] N_u)
           (repeat 1 N_u)).
  - exact zeros_initializer_shaped.
  - rewrite repeat_length. apply Permutation_sym, Permutation_rev.
  - rewrite repeat_length. apply Nat.le_refl.
  - unfold batch. apply Forall_forall. intros row Hrow.
    apply repeat_spec in Hrow. rewrite Hrow. reflexivity.
  - rewrite !repeat_length. reflexivity.
Defined.

(** * Further properties of the code *)

(** ** Before [fit] *)

(** X1. An instance that the constructor has just built has no collocation
    points: [f_model], and with it [loss], [grad] and [predict], raise, and
    the instance is left as it was. *)
Theorem methods_raise_before_fit {Opt : Type} `{OptimizerV2 Opt}
    (kernel_initializer : nat -> nat -> nat -> matrix) (widths : list nat) (opt : Opt)
    (s : @PhysicsInformedNN Opt) (X u u_pred : matrix) :
  __init__ kernel_initializer widths opt = Some s ->
  f_model s = (None, s)
  /\ loss u u_pred s = (None, s)
  /\ grad X u s = (None, s)
  /\ predict X s = (None, s).
Proof.
  intros Hinit. destruct widths as [|d [|w ws]]; try discriminate.
  injection Hinit as <-.
  repeat split; reflexivity.
Qed.

Lemma methods_raise_before_fit_witness :
  exists s,
    __init__ zeros_initializer layers optimizer_of_script = Some s
    /\ f_model s = (None, s)
    /\ loss [[1]] [[0]] s = (None, s)
    /\ grad [[0; 0]] [[1]] s = (None, s)
    /\ predict [[0; 0]] s = (None, s).
Proof.
  eexists. split; [apply init_with_layers|].
  apply (methods_raise_before_fit zeros_initializer layers optimizer_of_script _
           [[0; 0]] [[1]] [[0]]).
  apply init_with_layers.
Defined.

(** ** The constructor, for any list of widths *)

Lemma add_dense_layers_nth kernel_initializer (index input_width : nat) (widths : list nat)
    (i : nat) :
  (i < length widths)%nat ->
  nth i (add_dense_layers kernel_initializer index input_width widths) empty_dense
  = mkDense (nth i widths 0%nat) (Some tf_nn_tanh)
            (kernel_initializer (index + i)%nat (nth i (input_width :: widths) 0%nat)
                                (nth i widths 0%nat))
            (repeat 0 (nth i widths 0%nat)).
Proof.
  revert index input_width i.
  induction widths as [|w ws IH]; intros index input_width [|i] Hi; simpl in Hi; try lia.
  - simpl. rewrite Nat.add_0_r. reflexivity.
  - cbn [add_dense_layers nth]. rewrite IH by lia.
    replace (S index + i)%nat with (index + S i)%nat by lia. reflexivity.
Qed.

(** X2. The constructor raises on an empty list of widths (at [layers[0]])
    and on a list of one width (at [layers[-1]] of a model without layers).
    On [d :: w :: ws] it builds one tanh layer per width of [w :: ws]: layer
    [i] has the width of index [i], a kernel initialized for the shape (width
    of the layer before, width of the layer) and a zero bias, so that the
    network is well shaped for inputs of width [d] when the widths are
    positive and the initializer returns the shapes asked for; the two
    scalars start at 0.0 and -6.0, the optimizer is the one given, and no
    data is stored. *)
Theorem init_builds_one_tanh_layer_per_width {Opt : Type} `{OptimizerV2 Opt}
    (kernel_initializer : nat -> nat -> nat -> matrix) (opt : Opt)
    (d w : nat) (ws : list nat) :
  __init__ kernel_initializer [] opt = None
  /\ __init__ kernel_initializer [d] opt = None
  /\ exists s,
       __init__ kernel_initializer (d :: w :: ws) opt = Some s
       /\ architecture (u_model s) = map (fun n => (n, Some tf_nn_tanh)) (w :: ws)
       /\ (forall i, (i < length (w :: ws))%nat ->
             kernel (nth i (u_model s) empty_dense)
             = kernel_initializer i (nth i (d :: w :: ws) 0%nat) (nth i (w :: ws) 0%nat)
             /\ bias (nth i (u_model s) empty_dense) = repeat 0 (nth i (w :: ws) 0%nat))
       /\ length (trainable_variables s) = (2 * length (w :: ws))%nat
       /\ (shaped_initializer kernel_initializer ->
           Forall (fun n => (0 < n)%nat) (w :: ws) ->
           well_shaped d (u_model s))
       /\ lambda_1 s = [0] /\ lambda_2 s = [-6] /\ optimizer s = opt
       /\ X_u s = None /\ u s = None /\ x_f s = None /\ t_f s = None
       /\ train_loss_results s = None.
Proof.
  split; [reflexivity|]. split; [reflexivity|].
  exists (mkPINN (add_dense_layers kernel_initializer 0 d (w :: ws)) [0] [-6] opt
                 None None None None None).
  split; [reflexivity|].
  cbn [u_model lambda_1 lambda_2 optimizer X_u u x_f t_f train_loss_results].
  split; [apply add_dense_layers_architecture|].
  split.
  { intros i Hi. rewrite add_dense_layers_nth by exact Hi. split; reflexivity. }
  split.
  { rewrite trainable_variables_length. cbn [u_model].
    rewrite <- (length_map layer_spec).
    change (map layer_spec ?m) with (architecture m).
    rewrite add_dense_layers_architecture, length_map. reflexivity. }
  split; [apply add_dense_layers_well_shaped|].
  repeat split.
Qed.

(** ** What [fit] stores and keeps *)

(** X3. With Adam, on an instance for the Burgers equation, fresh or already
    trained, and a training set (rows of two inputs, one observed value per
    row), [fit] returns: it stores [X_u] and [u], starts the list of losses
    anew and leaves one loss per epoch in it, and keeps the number, the
    widths and the activations of the layers.  The instance it leaves is
    again one for the Burgers equation, on which [fit] can be called again,
    and on which the loss of the training set is the mean squared error of
    the network on the data plus the mean squared residual at the training
    points. *)
Theorem fit_stores_data_and_one_loss_per_epoch (X u0 : matrix) (epochs : nat)
    (s : @PhysicsInformedNN Adam) :
  burgers_network s ->
  adam_slots_match s ->
  training_set X u0 ->
  exists s' losses,
    fit X u0 epochs s = (Some tt, s')
    /\ X_u s' = Some X /\ u s' = Some u0
    /\ train_loss_results s' = Some losses /\ length losses = epochs
    /\ architecture (u_model s') = architecture (u_model s)
    /\ trainable_variables s' = trainable_variables s
    /\ burgers_network s'
    /\ adam_slots_match s'
    /\ loss u0 (sequential_call (u_model s') X) s'
       = (Some (mean (squared_differences u0 (column (map (prediction_at s') X)))
                + mean (squares (column (map (residual_at s') X)))), s').
Proof.
  intros Hb Hslots Ht.
  destruct (fit_burgers X u0 epochs s Hb Hslots Ht)
    as (s' & Hrun & Hb' & Hslots' & Hs' & _ & _ & Ha & Hl).
  destruct (holds_training_set_stored s' X u0 Hs') as (_ & EX & Eu & _ & _).
  destruct (train_loss_results s') as [losses|] eqn:Er; [|discriminate].
  exists s', losses. split; [exact Hrun|].
  split; [exact EX|]. split; [exact Eu|]. split; [exact Er|].
  split; [simpl in Hl; congruence|]. split; [exact Ha|].
  split.
  { unfold trainable_variables. rewrite (architecture_length _ _ Ha). reflexivity. }
  split; [exact Hb'|]. split; [exact Hslots'|].
  apply (loss_on_training_set s' X u0 Hb' Hs').
Qed.

Lemma fit_stores_data_and_one_loss_per_epoch_witness :
  exists s' losses,
    fit [[0; 0]; [1; 2]] [[0]; [1]] 3 small_pinn = (Some tt, s')
    /\ X_u s' = Some [[0; 0]; [1; 2]] /\ u s' = Some [[0]; [1]]
    /\ train_loss_results s' = Some losses /\ length losses = 3%nat
    /\ architecture (u_model s') = architecture (u_model small_pinn)
    /\ trainable_variables s' = trainable_variables small_pinn
    /\ burgers_network s'
    /\ adam_slots_match s'
    /\ loss [[0]; [1]] (sequential_call (u_model s') [[0; 0]; [1; 2]]) s'
       = (Some (mean (squared_differences [[0]; [1]]
                        (column (map (prediction_at s') [[0; 0]; [1; 2]])))
                + mean (squares (column (map (residual_at s') [[0; 0]; [1; 2]])))), s').
Proof.
  apply (fit_stores_data_and_one_loss_per_epoch [[0; 0]; [1; 2]] [[0]; [1]] 3 small_pinn).
  - exact small_pinn_burgers.
  - exact small_pinn_slots_match.
  - unfold training_set, batch. repeat constructor.
Defined.

(** ** Predictions stay in the range of tanh *)







(** ** The steps of Adam in [fit] *)

(** X6. [fit] makes one step of the optimizer per epoch.  With Adam, on an
    instance for the Burgers equation and a training set (rows of two inputs,
    one observed value per row), [fit] returns; after it the step counter has
    grown by [epochs], the learning rate is the same, and the moment slots of
    [lambda_1] and [lambda_2] are what they were: no slot is ever created for
    the two scalars.  The slots of the weights have the shapes of the
    weights, and the instance holds the training set. *)
Theorem fit_steps_adam_once_per_epoch (X u0 : matrix) (epochs : nat)
    (s : @PhysicsInformedNN Adam) :
  burgers_network s ->
  adam_slots_match s ->
  training_set X u0 ->
  exists s',
    fit X u0 epochs s = (Some tt, s')
    /\ iterations (optimizer s') = (iterations (optimizer s) + epochs)%nat
    /\ adam_learning_rate (optimizer s') = adam_learning_rate (optimizer s)
    /\ slot_m (optimizer s') Lambda_1 = slot_m (optimizer s) Lambda_1
    /\ slot_m (optimizer s') Lambda_2 = slot_m (optimizer s) Lambda_2
    /\ slot_v (optimizer s') Lambda_1 = slot_v (optimizer s) Lambda_1
    /\ slot_v (optimizer s') Lambda_2 = slot_v (optimizer s) Lambda_2
    /\ adam_slots_match s'
    /\ burgers_network s'
    /\ holds_training_set s' X u0.
Proof.
  intros Hb Hslots Ht.
  assert (Hw : well_shaped 2 (u_model s)) by (destruct Hb as [Hw _]; exact Hw).
  destruct (fit_adam_run X u0 epochs s 2 Hw Hslots)
    as (s' & Hrun & Hw' & Hslots' & H1 & H2 & Hd & Ha & Hl & Hit).
  exists s'. split; [exact Hrun|].
  destruct Hit as (I1 & I2 & I3 & I4 & I5 & I6).
  repeat (split; [assumption|]).
  split; [apply (burgers_network_kept s s'); assumption|].
  split; [exact Ht|]. split; [exact Hd|].
  destruct (train_loss_results s'); discriminate.
Qed.

Lemma fit_steps_adam_once_per_epoch_witness :
  exists s',
    fit [[0; 0]; [1; 2]] [[0]; [1]] 3 small_pinn = (Some tt, s')
    /\ iterations (optimizer s') = (iterations (optimizer small_pinn) + 3)%nat
    /\ adam_learning_rate (optimizer s') = adam_learning_rate (optimizer small_pinn)
    /\ slot_m (optimizer s') Lambda_1 = slot_m (optimizer small_pinn) Lambda_1
    /\ slot_m (optimizer s') Lambda_2 = slot_m (optimizer small_pinn) Lambda_2
    /\ slot_v (optimizer s') Lambda_1 = slot_v (optimizer small_pinn) Lambda_1
    /\ slot_v (optimizer s') Lambda_2 = slot_v (optimizer small_pinn) Lambda_2
    /\ adam_slots_match s'
    /\ burgers_network s'
    /\ holds_training_set s' [[0; 0]; [1; 2]] [[0]; [1]].
Proof.
  apply (fit_steps_adam_once_per_epoch [[0; 0]; [1; 2]] [[0]; [1]] 3 small_pinn).
  - exact small_pinn_burgers.
  - exact small_pinn_slots_match.
  - unfold training_set, batch. repeat constructor.
Defined.

(** ** The grid *)

Lemma column_app (xs ys : vector) : column (xs ++ ys) = column xs ++ column ys.
Proof. apply map_app. Qed.

Lemma hstack_row (x : vector) (ti : R) :
  np_hstack (column x) (column (map (fun _ => ti) x)) = map (fun xj => [xj; ti]) x.
Proof.
  unfold np_hstack. induction x as [|xj x IH]; [reflexivity|].
  simpl. rewrite map2_cons, IH. reflexivity.
Qed.

(** The grid, row of the mesh after row of the mesh: all positions at the
    first time, then all positions at the second time, and so on. *)
Lemma X_star_of_rows (x t : vector) :
  X_star_of x t = flat_map (fun ti => map (fun xj => [xj; ti]) x) t.
Proof.
  unfold X_star_of, np_meshgrid, flatten.
  induction t as [|ti t IH]; [reflexivity|].
  cbn [map concat flat_map]. rewrite !column_app. unfold np_hstack in *.
  rewrite map2_app by (unfold column; rewrite !length_map; reflexivity).
  f_equal; [apply hstack_row | exact IH].
Qed.

Lemma length_concat_uniform {A} (n : nat) (rows : list (list A)) :
  Forall (fun row => length row = n) rows ->
  length (concat rows) = (length rows * n)%nat.
Proof.
  induction 1 as [|row rows Hrow _ IH]; [reflexivity|].
  simpl. rewrite length_app, IH, Hrow. reflexivity.
Qed.

Lemma nth_concat_uniform {A} (n : nat) (rows : list (list A)) (i j : nat) (d : A) :
  Forall (fun row => length row = n) rows ->
  (i < length rows)%nat -> (j < n)%nat ->
  nth (i * n + j) (concat rows) d = nth j (nth i rows []) d.
Proof.
  intros Hrows. revert i. induction Hrows as [|row rows Hrow _ IH]; intros i Hi Hj.
  - simpl in Hi. lia.
  - destruct i as [|i].
    + simpl. apply app_nth1. lia.
    + cbn [concat nth]. replace (S i * n + j)%nat with (length row + (i * n + j))%nat
        by (rewrite Hrow; lia).
      rewrite app_nth2_plus. apply IH; [simpl in Hi; lia | exact Hj].
Qed.

Lemma nth_map_in_range {A B} (f : A -> B) (l : list A) (i : nat) (d : A) (d' : B) :
  (i < length l)%nat -> nth i (map f l) d' = f (nth i l d).
Proof.
  intros Hi. rewrite (nth_indep _ d' (f d)) by (rewrite length_map; exact Hi).
  apply map_nth.
Qed.

Lemma X_star_mesh_rows (x t : vector) :
  Forall (fun row : matrix => length row = length x)
         (map (fun ti => map (fun xj => [xj; ti]) x) t).
Proof.
  apply Forall_forall. intros row Hrow. apply in_map_iff in Hrow.
  destruct Hrow as [ti [<- _]]. apply length_map.
Qed.

Lemma X_star_length (x t : vector) :
  length (X_star_of x t) = (length t * length x)%nat.
Proof.
  rewrite X_star_of_rows, flat_map_concat_map.
  rewrite (length_concat_uniform _ _ (X_star_mesh_rows x t)), length_map. reflexivity.
Qed.

Lemma X_star_nth (x t : vector) (i j : nat) :
  (i < length t)%nat -> (j < length x)%nat ->
  nth (i * length x + j) (X_star_of x t) [] = [nth j x 0; nth i t 0].
Proof.
  intros Hi Hj. rewrite X_star_of_rows, flat_map_concat_map.
  rewrite (nth_concat_uniform _ _ i j [] (X_star_mesh_rows x t))
    by (rewrite ?length_map; assumption).
  rewrite (nth_map_in_range _ t i 0) by exact Hi.
  apply (nth_map_in_range (fun xj => [xj; nth i t 0]) x j 0). exact Hj.
Qed.

(** X7. [X_star] has one row (position, time) per point of the grid, ordered
    by time then by position: it has [len(t) * len(x)] rows of two entries,
    and row [i * len(x) + j] is the point [(x[j], t[i])]. *)
Theorem X_star_lists_the_grid (x t : vector) :
  length (X_star_of x t) = (length t * length x)%nat
  /\ Forall (fun row => length row = 2%nat) (X_star_of x t)
  /\ forall i j, (i < length t)%nat -> (j < length x)%nat ->
       nth (i * length x + j) (X_star_of x t) [] = [nth j x 0; nth i t 0].
Proof.
  split; [apply X_star_length|]. split; [|intros i j; apply X_star_nth].
  rewrite X_star_of_rows. apply Forall_forall. intros row Hrow.
  apply in_flat_map in Hrow. destruct Hrow as [ti [_ Hrow]].
  apply in_map_iff in Hrow. destruct Hrow as [xj [<- _]]. reflexivity.
Qed.

Lemma nth_column_of (k j : nat) (a : matrix) :
  nth j (column_of k a) 0 = nth k (nth j a []) 0.
Proof.
  unfold column_of.
  destruct (Nat.lt_ge_cases j (length a)) as [Hj | Hj].
  - apply (nth_map_in_range (fun row => nth k row 0) a j []). exact Hj.
  - rewrite (nth_overflow a [] Hj).
    rewrite nth_overflow by (rewrite length_map; exact Hj).
    destruct k; reflexivity.
Qed.

Lemma transpose_rows (a : matrix) :
  Forall (fun row : vector => length row = length a) (transpose a).
Proof.
  unfold transpose. apply Forall_forall. intros row Hrow. apply in_map_iff in Hrow.
  destruct Hrow as [k [<- _]]. unfold column_of. apply length_map.
Qed.

Lemma transpose_length (a : matrix) (n : nat) :
  a <> [] -> Forall (fun row => length row = n) a -> length (transpose a) = n.
Proof.
  intros Hne Ha. unfold transpose. rewrite length_map, length_seq.
  destruct a as [|row a]; [congruence|]. simpl. inversion Ha. assumption.
Qed.

Lemma u_star_length (usol : matrix) (nx nt : nat) :
  length usol = nx ->
  Forall (fun row => length row = nt) usol ->
  length (u_star_of usol) = (nt * nx)%nat.
Proof.
  intros Hx Ht. unfold u_star_of, flatten, column. rewrite length_map.
  rewrite (length_concat_uniform _ _ (transpose_rows usol)), Hx.
  destruct usol as [|row usol].
  - simpl in Hx. subst nx. simpl. lia.
  - rewrite (transpose_length _ nt) by (discriminate || exact Ht). reflexivity.
Qed.

Lemma u_star_nth (usol : matrix) (nx nt i j : nat) :
  length usol = nx ->
  Forall (fun row => length row = nt) usol ->
  (i < nt)%nat -> (j < nx)%nat ->
  nth (i * nx + j) (u_star_of usol) [] = [nth i (nth j usol []) 0].
Proof.
  intros Hx Ht Hi Hj.
  assert (Hne : usol <> []) by (intros ->; simpl in Hx; lia).
  pose proof (u_star_length usol nx nt Hx Ht) as Hlen.
  unfold u_star_of, flatten, column in Hlen. rewrite length_map in Hlen.
  unfold u_star_of, flatten. rewrite nth_column by (rewrite Hlen; nia).
  f_equal. pose proof (transpose_rows usol) as Hrows. rewrite Hx in Hrows.
  rewrite (nth_concat_uniform _ _ i j 0 Hrows)
    by (rewrite ?(transpose_length _ nt Hne Ht); assumption).
  assert (Hi' : (i < length (hd [] usol))%nat).
  { destruct usol as [|row usol]; [congruence|]. simpl. inversion Ht. lia. }
  unfold transpose.
  rewrite (nth_map_in_range _ _ i 0%nat) by (rewrite length_seq; exact Hi').
  rewrite seq_nth by exact Hi'. apply nth_column_of.
Qed.

(** X8. [u_star] is aligned with [X_star]: when [usol] has one row per
    position and one column per time, [u_star] has as many rows as [X_star],
    and its row [i * len(x) + j], the one of the point [(x[j], t[i])], holds
    [usol[j][i]]. *)
Theorem u_star_aligned_with_grid (x t : vector) (usol : matrix) :
  length usol = length x ->
  Forall (fun row => length row = length t) usol ->
  length (u_star_of usol) = length (X_star_of x t)
  /\ forall i j, (i < length t)%nat -> (j < length x)%nat ->
       nth (i * length x + j) (X_star_of x t) [] = [nth j x 0; nth i t 0]
       /\ nth (i * length x + j) (u_star_of usol) [] = [nth i (nth j usol []) 0].
Proof.
  intros Hx Ht. split.
  - rewrite X_star_length. apply u_star_length; assumption.
  - intros i j Hi Hj. split.
    + apply X_star_nth; assumption.
    + apply u_star_nth with (nt := length t); assumption.
Qed.

Lemma u_star_aligned_with_grid_witness :
  length (u_star_of [[1; 2; 3]; [4; 5; 6]]) = length (X_star_of [10; 20] [7; 8; 9])
  /\ forall i j, (i < length [7; 8; 9]%R)%nat -> (j < length [10; 20]%R)%nat ->
       nth (i * length [10; 20] + j) (X_star_of [10; 20] [7; 8; 9]) []
       = [nth j [10; 20] 0; nth i [7; 8; 9] 0]
       /\ nth (i * length [10; 20] + j) (u_star_of [[1; 2; 3]; [4; 5; 6]]) []
          = [nth i (nth j [[1; 2; 3]; [4; 5; 6]] []) 0].
Proof.
  apply (u_star_aligned_with_grid [10; 20] [7; 8; 9] [[1; 2; 3]; [4; 5; 6]]).
  - reflexivity.
  - repeat constructor.
Defined.

(** ** The bounds of the domain *)

Lemma nth_map2 (f : R -> R -> R) (a b : vector) (k : nat) :
  (k < length a)%nat -> (k < length b)%nat ->
  nth k (map2 f a b) 0 = f (nth k a 0) (nth k b 0).
Proof.
  revert b k. induction a as [|x a IH]; intros [|y b] [|k] Ha Hb;
    cbn [length] in *; try lia; rewrite map2_cons; cbn [nth].
  - reflexivity.
  - apply IH; lia.
Qed.

Section Reduction.

(** A reduction along axis 0 by an operation that picks one of its two
    arguments, the one that is below the other for [rel]. *)
Variable op : R -> R -> R.
Variable rel : R -> R -> Prop.
Hypothesis rel_refl : forall a, rel a a.
Hypothesis rel_trans : forall a b c, rel a b -> rel b c -> rel a c.
Hypothesis op_l : forall a b, rel (op a b) a.
Hypothesis op_r : forall a b, rel (op a b) b.
Hypothesis op_choice : forall a b, op a b = a \/ op a b = b.

Lemma reduce_axis0 (w : nat) (rest : matrix) (acc : vector) :
  length acc = w ->
  Forall (fun row => length row = w) rest ->
  length (fold_left (map2 op) rest acc) = w
  /\ forall k, (k < w)%nat ->
       Forall (fun row => rel (nth k (fold_left (map2 op) rest acc) 0) (nth k row 0))
              (acc :: rest)
       /\ Exists (fun row => nth k row 0 = nth k (fold_left (map2 op) rest acc) 0)
                 (acc :: rest).
Proof.
  intros Hacc Hrest. revert acc Hacc.
  induction Hrest as [|row rest Hrow _ IH]; intros acc Hacc.
  - split; [exact Hacc|]. intros k Hk. simpl. split.
    + constructor; [apply rel_refl | constructor].
    + constructor. reflexivity.
  - assert (Hlen : length (map2 op acc row) = w)
      by (rewrite map2_length, Hacc, Hrow; apply Nat.min_id).
    destruct (IH (map2 op acc row) Hlen) as [Hw Hk]. cbn [fold_left].
    split; [exact Hw|]. intros k Hlt. destruct (Hk k Hlt) as [Hall Hex].
    assert (Hnth : nth k (map2 op acc row) 0 = op (nth k acc 0) (nth k row 0))
      by (apply nth_map2; lia).
    inversion Hall as [|? ? Hhead Htail]; subst. rewrite Hnth in Hhead.
    split.
    + constructor; [|constructor; [|exact Htail]].
      * apply (rel_trans _ _ _ Hhead), op_l.
      * apply (rel_trans _ _ _ Hhead), op_r.
    + apply Exists_cons in Hex. destruct Hex as [Hhere | Hlater].
      * rewrite Hnth in Hhere.
        destruct (op_choice (nth k acc 0) (nth k row 0)) as [Hc | Hc];
          rewrite Hc in Hhere.
        -- apply Exists_cons_hd. exact Hhere.
        -- apply Exists_cons_tl, Exists_cons_hd. exact Hhere.
      * apply Exists_cons_tl, Exists_cons_tl. exact Hlater.
Qed.

End Reduction.

(** X9. [lb] and [ub], the minimum and the maximum of the rows of an array along
    axis 0: on an array with at least one row they have the width of the
    rows, every row lies between them component by component, and each of
    their components is that of some row; on an array without rows both
    raise. *)
Theorem bounds_enclose_every_row (row0 : vector) (rest : matrix) :
  Forall (fun row => length row = length row0) rest ->
  np_min_axis0 [] = None /\ np_max_axis0 [] = None
  /\ exists lb ub,
       np_min_axis0 (row0 :: rest) = Some lb
       /\ np_max_axis0 (row0 :: rest) = Some ub
       /\ length lb = length row0 /\ length ub = length row0
       /\ forall k, (k < length row0)%nat ->
            Forall (fun row => nth k lb 0 <= nth k row 0 <= nth k ub 0) (row0 :: rest)
            /\ Exists (fun row => nth k row 0 = nth k lb 0) (row0 :: rest)
            /\ Exists (fun row => nth k row 0 = nth k ub 0) (row0 :: rest).
Proof.
  intros Hrest. split; [reflexivity|]. split; [reflexivity|].
  destruct (reduce_axis0 Rmin Rle Rle_refl Rle_trans Rmin_l Rmin_r
              (fun a b => Rmin_case a b (fun m => m = a \/ m = b)
                            (or_introl eq_refl) (or_intror eq_refl))
              (length row0) rest row0 eq_refl Hrest) as [Hlmin Hmin].
  destruct (reduce_axis0 Rmax Rge Rge_refl Rge_trans
              (fun a b => Rle_ge _ _ (Rmax_l a b)) (fun a b => Rle_ge _ _ (Rmax_r a b))
              (fun a b => Rmax_case a b (fun m => m = a \/ m = b)
                            (or_introl eq_refl) (or_intror eq_refl))
              (length row0) rest row0 eq_refl Hrest) as [Hlmax Hmax].
  eexists. eexists. split; [reflexivity|]. split; [reflexivity|].
  split; [exact Hlmin|]. split; [exact Hlmax|].
  intros k Hk. destruct (Hmin k Hk) as [Amin Emin]. destruct (Hmax k Hk) as [Amax Emax].
  split; [|split; assumption].
  rewrite Forall_forall in *. intros row Hrow. split.
  - apply Amin, Hrow.
  - apply Rge_le, Amax, Hrow.
Qed.

Lemma bounds_enclose_every_row_witness :
  np_min_axis0 [] = None /\ np_max_axis0 [] = None
  /\ exists lb ub,
       np_min_axis0 ([-1; 0] :: [[1; 0]; [0; 1]]) = Some lb
       /\ np_max_axis0 ([-1; 0] :: [[1; 0]; [0; 1]]) = Some ub
       /\ length lb = length [-1; 0] /\ length ub = length [-1; 0]
       /\ forall k, (k < length [-1; 0]%R)%nat ->
            Forall (fun row => nth k lb 0 <= nth k row 0 <= nth k ub 0)
                   ([-1; 0] :: [[1; 0]; [0; 1]])
            /\ Exists (fun row => nth k row 0 = nth k lb 0) ([-1; 0] :: [[1; 0]; [0; 1]])
            /\ Exists (fun row => nth k row 0 = nth k ub 0) ([-1; 0] :: [[1; 0]; [0; 1]]).
Proof.
  apply (bounds_enclose_every_row [-1; 0] [[1; 0]; [0; 1]]).
  repeat constructor.
Defined.

(** ** The script, from the data to the trained model *)


(** X10. With fewer than [N_u] points on the grid the script stops before any
    model is built: on an empty grid at the bounds, otherwise at the
    sampling. *)
Theorem script_raises_on_small_grid (permutation : list nat)
    (kernel_initializer : nat -> nat -> nat -> matrix) (t x : vector) (usol : matrix) :
  (length t * length x < N_u)%nat ->
  script permutation kernel_initializer t x usol = None.
Proof.
  intros Hlt. unfold script.
  destruct (np_min_axis0 (X_star_of x t)); [|reflexivity].
  destruct (np_max_axis0 (X_star_of x t)); [|reflexivity].
  unfold main, np_random_choice.
  rewrite X_star_length.
  destruct (Nat.leb_spec N_u (length t * length x)) as [Hle|_]; [lia | reflexivity].
Qed.

Lemma script_raises_on_small_grid_witness :
  script (rev (seq 0 6)) zeros_initializer [0; 1; 2] [-1; 1]
         [[0; 1; 2]; [3; 4; 5]] = None.
Proof.
  apply (script_raises_on_small_grid (rev (seq 0 6)) zeros_initializer [0; 1; 2] [-1; 1]
           [[0; 1; 2]; [3; 4; 5]]).
  unfold N_u. simpl. lia.
Defined.



(** ** The residual, point by point *)

(** X12. The residual is computed point by point.  On an instance for the
    Burgers equation, [f_model] on collocation points that are two batches
    one after the other returns what it returns on the first batch followed
    by what it returns on the second, one row of one value per point: the
    residual at a point does not depend on the other points of the batch,
    and an empty batch gives an empty residual.  The call of the network on
    the stacked points passes the check of Keras. *)
Theorem residual_is_pointwise {Opt : Type} (s : @PhysicsInformedNN Opt)
    (xs1 ts1 xs2 ts2 : vector) :
  burgers_network s ->
  length xs1 = length ts1 ->
  length xs2 = length ts2 ->
  exists f1 f2,
    f_model (with_points xs1 ts1 s) = (Some f1, with_points xs1 ts1 s)
    /\ f_model (with_points xs2 ts2 s) = (Some f2, with_points xs2 ts2 s)
    /\ f_model (with_points (xs1 ++ xs2) (ts1 ++ ts2) s)
       = (Some (f1 ++ f2), with_points (xs1 ++ xs2) (ts1 ++ ts2) s)
    /\ length f1 = length xs1 /\ length f2 = length xs2
    /\ Forall (fun row => length row = 1%nat) (f1 ++ f2)
    /\ f_model (with_points [] [] s) = (Some [], with_points [] [] s)
    /\ checked_sequential_call (u_model s) (tf_stack_axis1 (xs1 ++ xs2) (ts1 ++ ts2))
       = Some (column (map2 (u_net (u_model s)) (xs1 ++ xs2) (ts1 ++ ts2))).
Proof.
  intros Hb Hl1 Hl2.
  destruct (burgers_scalars s Hb) as [H1 H2].
  destruct Hb as (Hw & Hlast & _).
  set (F := pde_residual (hd 0 (lambda_1 s)) (float32_exp (hd 0 (lambda_2 s)))
                         (u_net (u_model s))).
  assert (Hval : forall xs ts, length xs = length ts ->
            f_model (with_points xs ts s)
            = (Some (column (map2 F xs ts)), with_points xs ts s)).
  { intros xs ts Hlen.
    apply (f_model_on_columns (with_points xs ts s) xs ts); try assumption;
      reflexivity. }
  exists (column (map2 F xs1 ts1)), (column (map2 F xs2 ts2)).
  split; [apply Hval, Hl1|]. split; [apply Hval, Hl2|].
  split.
  { rewrite Hval by (rewrite !length_app; lia).
    rewrite map2_app by exact Hl1. rewrite column_app. reflexivity. }
  split; [unfold column; rewrite length_map, map2_length, <- Hl1; apply Nat.min_id|].
  split; [unfold column; rewrite length_map, map2_length, <- Hl2; apply Nat.min_id|].
  split.
  { apply Forall_app. split; apply Forall_forall; intros row Hrow;
      apply in_map_iff in Hrow; destruct Hrow as [y [<- _]]; reflexivity. }
  split; [apply (Hval [] []); reflexivity|].
  rewrite (checked_call_well_shaped _ 2 _ Hw (stacked_rows _ _)).
  rewrite <- (forward_on_columns _ _ _ Hlast), !column_0_column. reflexivity.
Qed.

Lemma residual_is_pointwise_witness :
  exists f1 f2,
    f_model (with_points [0; 1] [0; 0] small_pinn)
    = (Some f1, with_points [0; 1] [0; 0] small_pinn)
    /\ f_model (with_points [1] [2] small_pinn) = (Some f2, with_points [1] [2] small_pinn)
    /\ f_model (with_points ([0; 1] ++ [1]) ([0; 0] ++ [2]) small_pinn)
       = (Some (f1 ++ f2), with_points ([0; 1] ++ [1]) ([0; 0] ++ [2]) small_pinn)
    /\ length f1 = length [0; 1]%R /\ length f2 = length [1]%R
    /\ Forall (fun row => length row = 1%nat) (f1 ++ f2)
    /\ f_model (with_points [] [] small_pinn) = (Some [], with_points [] [] small_pinn)
    /\ checked_sequential_call (u_model small_pinn)
         (tf_stack_axis1 ([0; 1] ++ [1]) ([0; 0] ++ [2]))
       = Some (column (map2 (u_net (u_model small_pinn)) ([0; 1] ++ [1]) ([0; 0] ++ [2]))).
Proof.
  apply (residual_is_pointwise small_pinn [0; 1] [0; 0] [1] [2]).
  - exact small_pinn_burgers.
  - reflexivity.
  - reflexivity.
Defined.

(** ** The sign of the loss *)



(** ** No training point is drawn twice *)

Lemma NoDup_map_injective {A B} (f : A -> B) (l : list A) :
  (forall a b, f a = f b -> a = b) -> NoDup l -> NoDup (map f l).
Proof.
  intros Hinj. induction 1 as [|a l Ha _ IH]; simpl; constructor.
  - intros Hin. apply in_map_iff in Hin. destruct Hin as [b [Hb Hin]].
    apply Hinj in Hb. subst. contradiction.
  - exact IH.
Qed.

Lemma X_star_NoDup (x t : vector) : NoDup x -> NoDup t -> NoDup (X_star_of x t).
Proof.
  intros Hx Ht. rewrite X_star_of_rows.
  induction Ht as [|ti t Hti _ IH]; simpl; [constructor|].
  apply NoDup_app.
  - apply NoDup_map_injective; [|exact Hx]. intros a b Hab. congruence.
  - exact IH.
  - intros row Hrow Hin. apply in_map_iff in Hrow. destruct Hrow as [xj [<- _]].
    apply in_flat_map in Hin. destruct Hin as [tk [Htk Hin]].
    apply in_map_iff in Hin. destruct Hin as [xk [Heq _]].
    injection Heq as _ ->. contradiction.
Qed.

Lemma take_rows_NoDup (a : matrix) (ids : list nat) (rows : matrix) :
  NoDup a -> NoDup ids ->
  Forall2 (fun i row => nth_error a i = Some row) ids rows ->
  NoDup rows.
Proof.
  intros Ha Hids Hrows. induction Hrows as [|i row ids rows Hi Hrest IH].
  - constructor.
  - apply NoDup_cons_iff in Hids. destruct Hids as [Hnotin Hids].
    constructor; [|apply IH, Hids].
    intros Hin. apply Hnotin. clear IH Hids Hnotin.
    induction Hrest as [|k row' ids rows Hk _ IHr]; [contradiction|].
    destruct Hin as [-> | Hin].
    + left. symmetry. apply (proj1 (NoDup_nth_error a) Ha).
      * apply nth_error_Some. congruence.
      * congruence.
    + right. apply IHr, Hin.
Qed.

(** X15. When the positions are pairwise distinct and so are the times, the
    script trains on [N_u] pairwise distinct points of the grid: no (position,
    time) row appears twice in [X_u_train]. *)
Theorem training_points_are_distinct (permutation : list nat)
    (kernel_initializer : nat -> nat -> nat -> matrix) (t x : vector) (usol : matrix) :
  NoDup x -> NoDup t ->
  length usol = length x ->
  Forall (fun row => length row = length t) usol ->
  (N_u <= length t * length x)%nat ->
  Permutation permutation (seq 0 (length t * length x)) ->
  exists lb ub run,
    script permutation kernel_initializer t x usol = Some (lb, ub, run)
    /\ length (X_u_train run) = N_u
    /\ NoDup (X_u_train run)
    /\ Forall (fun row => In row (X_star_of x t)) (X_u_train run).
Proof.
  intros Hnx Hnt Hx Ht Hle Hp.
  pose proof (X_star_length x t) as HlenX.
  assert (HlenU : length (u_star_of usol) = length (X_star_of x t))
    by (rewrite HlenX; apply u_star_length; assumption).
  rewrite <- HlenX in Hp, Hle.
  destruct (main_run permutation kernel_initializer (X_star_of x t) (u_star_of usol)
              Hp Hle HlenU)
    as (ids & Xtr & utr & s0 & s' & f & _ & Hnd & Hl & HX & _ & _ & _ & _ & Hmain).
  destruct (X_star_of x t) as [|row0 rest] eqn:EXs.
  { simpl in Hle. unfold N_u in Hle. simpl in Hle. lia. }
  eexists. eexists. eexists. split.
  - unfold script. rewrite EXs. cbn [np_min_axis0 np_max_axis0].
    rewrite Hmain. reflexivity.
  - cbn [X_u_train]. split; [|split].
    + rewrite <- (Forall2_length HX). exact Hl.
    + apply (take_rows_NoDup (row0 :: rest) ids); [|exact Hnd | exact HX].
      rewrite <- EXs. apply X_star_NoDup; assumption.
    + clear - HX. induction HX as [|i row ids rows Hi _ IH]; constructor.
      * apply (nth_error_In _ _ Hi).
      * exact IH.
Qed.

Lemma training_points_are_distinct_witness :
  exists lb ub run,
    script (rev (seq 0 (40 * 50))) zeros_initializer
           (map INR (seq 0 40)) (map INR (seq 0 50)) (repeat (repeat 0 40) 50)
    = Some (lb, ub, run)
    /\ length (X_u_train run) = N_u
    /\ NoDup (X_u_train run)
    /\ Forall (fun row => In row (X_star_of (map INR (seq 0 50)) (map INR (seq 0 40))))
              (X_u_train run).
Proof.
  apply (training_points_are_distinct (rev (seq 0 (40 * 50))) zeros_initializer
           (map INR (seq 0 40)) (map INR (seq 0 50)) (repeat (repeat 0 40) 50)).
  - apply NoDup_map_injective; [exact INR_eq | apply seq_NoDup].
  - apply NoDup_map_injective; [exact INR_eq | apply seq_NoDup].
  - rewrite repeat_length, length_map, length_seq. reflexivity.
  - apply Forall_forall. intros row Hrow. apply repeat_spec in Hrow.
    rewrite Hrow, repeat_length, length_map, length_seq. reflexivity.
  - rewrite !length_map, !length_seq. apply Nat.leb_le. reflexivity.
  - rewrite !length_map, !length_seq. apply Permutation_sym, Permutation_rev.
Defined.
